(** * The conversational workflow engine of [src/actions/langchainWorkflow.ts]

    A shallow embedding of [ConversationMemory], [PromptTemplate],
    [LangChainTool] and [LangChainWorkflow], together with the fragment of
    the JavaScript standard library these classes call, and the properties
    the specification states about them.

    Conventions.
    - A JavaScript string is the list of its UTF-16 code units.
    - A method that mutates [this] takes the object and returns the new one.
    - A method that can throw returns a sum, the thrown value on the left.
    - [Date.now()] and the tool handlers are the only contact with the
      outside; both are threaded through a [World]. *)

From Stdlib Require Import ZArith NArith Lia String Ascii.
From stdpp Require Import base numbers list option gmap.

Set Default Proof Using "Type".

(** ** JavaScript values and library functions *)

Module Js.

(** One UTF-16 code unit. *)
Definition char : Type := N.

Definition str : Type := list char.

(** The code units of an ASCII literal. *)
Definition lit (s : string) : str :=
  List.map N_of_ascii (list_ascii_of_string s).
Arguments lit s%_string.

Definition LF : char := 10%N.
Definition DQUOTE : char := 34%N.
Definition DOLLAR : char := 36%N.
Definition BACKSLASH : char := 92%N.

(** [ToBoolean] on a string: only the empty string is falsy. *)
Definition truthy (s : str) : bool :=
  match s with [] => false | _ :: _ => true end.

(** [a || b] on strings. *)
Definition or_else (a b : str) : str := if truthy a then a else b.

(** [a ?? b]; [None] stands for [undefined]. *)
Definition nullish {A} (a : option A) (b : A) : A :=
  match a with Some x => x | None => b end.

(** The code units matched by [\s], which are also the ones
    [String.prototype.trim] strips: WhiteSpace and LineTerminator. *)
Definition is_white_space (c : char) : bool :=
  ((c =? 0x09) || (c =? 0x0A) || (c =? 0x0B) || (c =? 0x0C) || (c =? 0x0D)
   || (c =? 0x20) || (c =? 0xA0) || (c =? 0x1680)
   || ((0x2000 <=? c) && (c <=? 0x200A))
   || (c =? 0x2028) || (c =? 0x2029) || (c =? 0x202F) || (c =? 0x205F)
   || (c =? 0x3000) || (c =? 0xFEFF))%N.

(** [Array.prototype.slice(start)] and [String.prototype.slice(start)]
    with one argument. *)
Definition slice {A} (l : list A) (start : Z) : list A :=
  let len := Z.of_nat (length l) in
  let k := if (start <? 0)%Z then Z.max (len + start) 0 else Z.min start len in
  drop (Z.to_nat k) l.

(** [Array.prototype.join(sep)] on an array of strings. *)
Fixpoint join (sep : str) (l : list str) : str :=
  match l with
  | [] => []
  | [s] => s
  | s :: rest => s ++ sep ++ join sep rest
  end.

(** [String.prototype.split(sep)] for a separator of one code unit. The
    result always has at least one segment. *)
Fixpoint split (sep : char) (s : str) : list str :=
  match s with
  | [] => [[]]
  | c :: s' =>
      if (c =? sep)%N then [] :: split sep s'
      else match split sep s' with
           | seg :: segs => (c :: seg) :: segs
           | [] => [[c]]
           end
  end.

Fixpoint drop_while {A} (p : A -> bool) (l : list A) : list A :=
  match l with
  | [] => []
  | x :: l' => if p x then drop_while p l' else l
  end.

(** [String.prototype.trim()]. *)
Definition trim (s : str) : str :=
  rev (drop_while is_white_space (rev (drop_while is_white_space s))).

(** [s.replace(/C+/g, rep)] for a character class [C] and a replacement
    [rep] that holds no [$]: the leftmost match at a class character takes
    the whole run. [in_run] tells that the previous code unit was part of
    the run being replaced. *)
Fixpoint replace_runs (cls : char -> bool) (rep : str) (in_run : bool) (s : str) : str :=
  match s with
  | [] => []
  | c :: s' =>
      if cls c
      then (if in_run then [] else rep) ++ replace_runs cls rep true s'
      else c :: replace_runs cls rep false s'
  end.

(** [s.replace(/\s+/g, " ")]. *)
Definition collapse_white_space (s : str) : str :=
  replace_runs is_white_space (lit " ") false s.

(** *** Objects used as [Record<string, V>] *)

(** The properties in the order they were created; keys are unique. *)
Definition obj (V : Type) : Type := list (str * V).

Fixpoint obj_get {V} (o : obj V) (k : str) : option V :=
  match o with
  | [] => None
  | (k', v) :: o' => if decide (k = k') then Some v else obj_get o' k
  end.

(** [o[k] = v]: an existing property keeps its place. *)
Fixpoint obj_set {V} (o : obj V) (k : str) (v : V) : obj V :=
  match o with
  | [] => [(k, v)]
  | (k', v') :: o' =>
      if decide (k = k') then (k, v) :: o' else (k', v') :: obj_set o' k v
  end.

(** [o[k] = v] with a string [v], on an object literal. The key
    [__proto__] reaches the setter inherited from [Object.prototype], which
    ignores a value that is neither an object nor [null]: no property is
    created. *)
Definition assign (o : obj str) (k : str) (v : str) : obj str :=
  if decide (k = lit "__proto__") then o else obj_set o k v.

Definition digit (c : char) : option N :=
  if ((48 <=? c) && (c <=? 57))%N then Some (c - 48)%N else None.

Fixpoint decimal (acc : N) (s : str) : option N :=
  match s with
  | [] => Some acc
  | c :: s' =>
      match digit c with
      | Some d => decimal (10 * acc + d)%N s'
      | None => None
      end
  end.

(** A key that is an array index: the canonical decimal form of an
    integer below [2^32 - 1]. *)
Definition array_index (k : str) : option N :=
  match k with
  | [] => None
  | c :: rest =>
      if ((c =? 48)%N && truthy rest) then None
      else match decimal 0 k with
           | Some n => if (n <? 2 ^ 32 - 1)%N then Some n else None
           | None => None
           end
  end.

Fixpoint insert_by_index {V} (n : N) (e : str * V) (l : list (N * (str * V)))
  : list (N * (str * V)) :=
  match l with
  | [] => [(n, e)]
  | (m, e') :: l' =>
      if (n <? m)%N then (n, e) :: l else (m, e') :: insert_by_index n e l'
  end.

Fixpoint index_entries {V} (o : obj V) : list (N * (str * V)) :=
  match o with
  | [] => []
  | (k, v) :: o' =>
      match array_index k with
      | Some n => insert_by_index n (k, v) (index_entries o')
      | None => index_entries o'
      end
  end.

Fixpoint named_entries {V} (o : obj V) : obj V :=
  match o with
  | [] => []
  | (k, v) :: o' =>
      match array_index k with
      | Some _ => named_entries o'
      | None => (k, v) :: named_entries o'
      end
  end.

(** [Object.entries(o)]: array indices in ascending order, then the other
    keys in creation order. *)
Definition entries {V} (o : obj V) : list (str * V) :=
  List.map snd (index_entries o) ++ named_entries o.

(** *** [JSON.stringify] on a [Record<string, string>] *)

Definition hex_digit (n : N) : char :=
  (if n <? 10 then 48 + n else 87 + n)%N.

(** [\uXXXX], lower case. *)
Definition unicode_escape (c : char) : str :=
  [BACKSLASH; 117%N;
   hex_digit (c / 4096 mod 16); hex_digit (c / 256 mod 16);
   hex_digit (c / 16 mod 16); hex_digit (c mod 16)]%N.

Definition is_lead_surrogate (c : char) : bool :=
  ((0xD800 <=? c) && (c <=? 0xDBFF))%N.

Definition is_trail_surrogate (c : char) : bool :=
  ((0xDC00 <=? c) && (c <=? 0xDFFF))%N.

Definition quote_unit (c : char) : str :=
  if (c =? 0x08)%N then [BACKSLASH; 98%N]
  else if (c =? 0x09)%N then [BACKSLASH; 116%N]
  else if (c =? 0x0A)%N then [BACKSLASH; 110%N]
  else if (c =? 0x0C)%N then [BACKSLASH; 102%N]
  else if (c =? 0x0D)%N then [BACKSLASH; 114%N]
  else if (c =? DQUOTE)%N then [BACKSLASH; DQUOTE]
  else if (c =? BACKSLASH)%N then [BACKSLASH; BACKSLASH]
  else if (c <? 0x20)%N then unicode_escape c
  else if is_lead_surrogate c || is_trail_surrogate c then unicode_escape c
  else [c].

(** The body of [QuoteJSONString]: a surrogate pair is kept, a lone
    surrogate is escaped. *)
Fixpoint quote_body (s : str) : str :=
  match s with
  | [] => []
  | c :: s' =>
      match s' with
      | d :: s'' =>
          if is_lead_surrogate c && is_trail_surrogate d
          then c :: d :: quote_body s''
          else quote_unit c ++ quote_body s'
      | [] => quote_unit c
      end
  end.

Definition quote (s : str) : str := [DQUOTE] ++ quote_body s ++ [DQUOTE].

Definition json_member (e : str * str) : str :=
  quote (fst e) ++ lit ":" ++ quote (snd e).

(** [JSON.stringify(o)] for an object whose values are strings. *)
Definition json_stringify (o : obj str) : str :=
  lit "{" ++ join (lit ",") (List.map json_member (entries o)) ++ lit "}".

(** *** The placeholder pattern and [String.prototype.replace] *)

(** [Some rest] when [s = p ++ rest]. *)
Fixpoint strip_prefix (p s : str) : option str :=
  match p with
  | [] => Some s
  | c :: p' =>
      match s with
      | d :: s' => if (c =? d)%N then strip_prefix p' s' else None
      | [] => None
      end
  end.

(** A key made of [A-Za-z0-9_] only. Inside a pattern such a key stands
    for itself and does not start with white space, so that the greedy
    [\s*] before it never gives code units back. *)
Definition is_word_char (c : char) : bool :=
  (((48 <=? c) && (c <=? 57)) || ((65 <=? c) && (c <=? 90))
   || ((97 <=? c) && (c <=? 122)) || (c =? 95))%N.

Definition plain_key (key : str) : bool := forallb is_word_char key.

(** A match of [new RegExp(`{{\\s*${key}\\s*}}`)] at the start of [s], for
    a [plain_key]: what follows the match. The pattern has no groups. *)
Definition match_placeholder (key : str) (s : str) : option str :=
  match strip_prefix (lit "{{") s with
  | Some s1 =>
      match strip_prefix key (drop_while is_white_space s1) with
      | Some s2 => strip_prefix (lit "}}") (drop_while is_white_space s2)
      | None => None
      end
  | None => None
  end.

(** [GetSubstitution] for a match without captures: [$$], [$&], [$`] and
    [$'] are expanded; [$] before anything else stands for itself. *)
Fixpoint get_substitution (matched before after : str) (replacement : str) : str :=
  match replacement with
  | [] => []
  | c :: r' =>
      if (c =? DOLLAR)%N then
        match r' with
        | d :: r'' =>
            if (d =? DOLLAR)%N then DOLLAR :: get_substitution matched before after r''
            else if (d =? 38)%N then matched ++ get_substitution matched before after r''
            else if (d =? 96)%N then before ++ get_substitution matched before after r''
            else if (d =? 39)%N then after ++ get_substitution matched before after r''
            else c :: get_substitution matched before after r'
        | [] => [c]
        end
      else c :: get_substitution matched before after r'
  end.

(** [text.replace(new RegExp(`{{\\s*${key}\\s*}}`, "g"), value)], scanning
    [s] from the left. [before] is the text already scanned and [skip] the
    number of code units of the current match still to pass over. *)
Fixpoint replace_from (key value : str) (skip : nat) (before s : str) : str :=
  match s with
  | [] => []
  | c :: s' =>
      match skip with
      | S k => replace_from key value k (before ++ [c]) s'
      | O =>
          match match_placeholder key s with
          | Some after =>
              let matched := take (length s - length after) s in
              get_substitution matched before after value
                ++ replace_from key value (length matched - 1) (before ++ [c]) s'
          | None => c :: replace_from key value 0 (before ++ [c]) s'
          end
      end
  end.

Definition replace_placeholder (key value : str) (text : str) : str :=
  replace_from key value 0 [] text.

(** A thrown value: [new Error(message)], or anything else a handler
    throws. *)
Inductive thrown : Type :=
| Error (message : str)
| Thrown (value : str).

End Js.

(** ** ConversationMemory *)

Module ConversationMemory.

Inductive Role : Type := user | assistant.

Definition role_name (r : Role) : Js.str :=
  match r with user => Js.lit "user" | assistant => Js.lit "assistant" end.

Record MemoryEntry : Type := {
  role : Role;
  text : Js.str;
  timestamp : Z
}.

(** [limit] is an integer; the constructor's default is 6. *)
Record t : Type := {
  history : list MemoryEntry;
  limit : Z
}.

(** [new ConversationMemory(limit)]. *)
Definition create (limit : option Z) : t :=
  {| history := []; limit := Js.nullish limit 6%Z |}.

(** [append(role, text)]; [now] is what [Date.now()] returns in the call. *)
Definition append (m : t) (r : Role) (txt : Js.str) (now : Z) : t :=
  let pushed := history m ++ [{| role := r; text := txt; timestamp := now |}] in
  if (limit m <? Z.of_nat (length pushed))%Z
  then {| history := Js.slice pushed (Z.of_nat (length pushed) - limit m);
          limit := limit m |}
  else {| history := pushed; limit := limit m |}.

Definition snapshot (m : t) : list MemoryEntry := history m.

Definition render (e : MemoryEntry) : Js.str :=
  Js.lit "[" ++ role_name (role e) ++ Js.lit "] " ++ text e.

Definition summarize (m : t) : Js.str :=
  let summary := Js.join [Js.LF] (List.map render (history m)) in
  Js.or_else summary (Js.lit "Conversation just started.").

End ConversationMemory.

(** ** PromptTemplate *)

Module PromptTemplate.

Record t : Type := { template : Js.str }.

(** [format(variables)]. The keys are taken to be [Js.plain_key]s, as the
    four keys [invoke] passes are; a key holding pattern syntax is outside
    this model. *)
Definition format (p : t) (variables : Js.obj Js.str) : Js.str :=
  fold_left (fun text kv => Js.replace_placeholder (fst kv) (snd kv) text)
            (Js.entries variables) (template p).

End PromptTemplate.

(** ** ChainContext, LangChainTool and the records of a run *)

Section Engine.

(** Whatever lies outside the engine: the clock and what the handlers act
    on. *)
Context {World : Type}.

(** [Record<string, unknown>], the caller's metadata. *)
Context {Metadata : Type}.

Record ChainContext : Type := {
  ctx_memory : ConversationMemory.t;
  ctx_metadata : Metadata;
  ctx_toolResults : Js.obj Js.str
}.

(** A handler returns a string or throws; an asynchronous one is awaited
    on the spot, so that only its outcome matters. It reads the context it
    is given: no handler of the repository writes to it. *)
Definition ToolHandler : Type :=
  Js.str -> ChainContext -> World -> (Js.thrown + Js.str) * World.

Record LangChainTool : Type := {
  tool_name : Js.str;
  tool_description : Js.str;
  tool_handler : ToolHandler
}.

(** The string a tool's raw result is wrapped into. *)
Definition wrap (name description result : Js.str) : Js.str :=
  name ++ Js.lit " (" ++ description ++ Js.lit "): " ++ result.

(** [LangChainTool.invoke(input, context)]. *)
Definition tool_invoke (t : LangChainTool) (input : Js.str) (context : ChainContext)
    (w : World) : (Js.thrown + Js.str) * World :=
  match tool_handler t input context w with
  | (inr result, w') => (inr (wrap (tool_name t) (tool_description t) result), w')
  | (inl e, w') => (inl e, w')
  end.

Record ChainStep : Type := {
  step_name : Js.str;
  step_prompt : PromptTemplate.t;
  step_tool : option LangChainTool
}.

Record StepTrace : Type := {
  step : Js.str;
  prompt : Js.str;
  toolResult : option Js.str;
  response : Js.str
}.

Record WorkflowResult : Type := {
  final : Js.str;
  trace : list StepTrace
}.

(** ** LangChainWorkflow *)

Record LangChainWorkflow : Type := {
  tools : gmap Js.str LangChainTool;
  steps : list ChainStep;
  memory : ConversationMemory.t
}.

(** [new LangChainWorkflow(memoryWindow)]; the default window is 6. *)
Definition create (memoryWindow : option Z) : LangChainWorkflow :=
  {| tools := ∅; steps := [];
     memory := ConversationMemory.create (Some (Js.nullish memoryWindow 6%Z)) |}.

Definition registerTool (wf : LangChainWorkflow) (name description : Js.str)
    (handler : ToolHandler) : LangChainWorkflow :=
  {| tools := <[name := {| tool_name := name; tool_description := description;
                           tool_handler := handler |}]> (tools wf);
     steps := steps wf;
     memory := memory wf |}.

Definition unregistered_message (toolName : Js.str) : Js.str :=
  Js.lit "Tool " ++ [Js.DQUOTE] ++ toolName ++ [Js.DQUOTE]
    ++ Js.lit " has not been registered.".

(** [addStep(name, template, toolName?)]. An empty [toolName] is falsy
    and counts as omitted. *)
Definition addStep (wf : LangChainWorkflow) (name template : Js.str)
    (toolName : option Js.str) : Js.thrown + LangChainWorkflow :=
  let given := match toolName with Some n => Js.truthy n | None => false end in
  let tool := match toolName with
              | Some n => if Js.truthy n then tools wf !! n else None
              | None => None
              end in
  if given && negb (bool_decide (is_Some tool))
  then inl (Js.Error (unregistered_message (Js.nullish toolName [])))
  else inr {| tools := tools wf;
              steps := steps wf ++ [{| step_name := name;
                                       step_prompt := {| PromptTemplate.template := template |};
                                       step_tool := tool |}];
              memory := memory wf |}.

(** [generateResponse(prompt, toolObservation?)]. *)
Definition generateResponse (prompt : Js.str) (toolObservation : option Js.str) : Js.str :=
  let lines := [Js.nullish (Js.slice (Js.split Js.LF prompt) (-1) !! 0%nat) prompt] in
  let lines := match toolObservation with
               | Some o => if Js.truthy o then lines ++ [o] else lines
               | None => lines
               end in
  let synthesized := Js.trim (Js.collapse_white_space (Js.join (Js.lit " | ") lines)) in
  Js.or_else synthesized (Js.lit "No actionable insight produced.").

(** [Date.now()]. *)
Context (date_now : World -> Z * World).

(** [JSON.stringify] on the metadata; it is taken to return. *)
Context (metadata_json : Metadata -> Js.str).

(** What the loop of [invoke] holds between two steps. [ls_memory] is
    [this.memory], which the context refers to. *)
Record LoopState : Type := {
  ls_memory : ConversationMemory.t;
  ls_toolResults : Js.obj Js.str;
  ls_trace : list StepTrace;
  ls_previousOutput : Js.str;
  ls_world : World
}.

(** The bindings a step's template is formatted with. *)
Definition bindings (metadata : Metadata) (st : LoopState) : Js.obj Js.str :=
  [(Js.lit "input", ls_previousOutput st);
   (Js.lit "memory", ConversationMemory.summarize (ls_memory st));
   (Js.lit "metadata", metadata_json metadata);
   (Js.lit "toolResults", Js.json_stringify (ls_toolResults st))].

Definition step_prompt_text (metadata : Metadata) (st : LoopState) (s : ChainStep) : Js.str :=
  PromptTemplate.format (step_prompt s) (bindings metadata st).

Definition context_of (metadata : Metadata) (st : LoopState) : ChainContext :=
  {| ctx_memory := ls_memory st; ctx_metadata := metadata;
     ctx_toolResults := ls_toolResults st |}.

(** The rest of the loop body once the tool, if any, has returned. *)
Definition finish_step (st : LoopState) (s : ChainStep) (p : Js.str)
    (toolRes : option Js.str) (toolResults : Js.obj Js.str) (w : World) : LoopState :=
  let r := generateResponse p toolRes in
  let (now, w') := date_now w in
  {| ls_memory := ConversationMemory.append (ls_memory st) ConversationMemory.assistant r now;
     ls_toolResults := toolResults;
     ls_trace := ls_trace st ++ [{| step := step_name s; prompt := p;
                                    toolResult := toolRes; response := r |}];
     ls_previousOutput := r;
     ls_world := w' |}.

(** One pass through the loop body. When the tool throws, what is left
    is the thrown value and the state at that moment. *)
Definition run_step (metadata : Metadata) (st : LoopState) (s : ChainStep)
  : (Js.thrown * LoopState) + LoopState :=
  let p := step_prompt_text metadata st s in
  match step_tool s with
  | Some t =>
      match tool_invoke t p (context_of metadata st) (ls_world st) with
      | (inr res, w') =>
          inr (finish_step st s p (Some res) (Js.assign (ls_toolResults st) (tool_name t) res) w')
      | (inl e, w') =>
          inl (e, {| ls_memory := ls_memory st; ls_toolResults := ls_toolResults st;
                     ls_trace := ls_trace st; ls_previousOutput := ls_previousOutput st;
                     ls_world := w' |})
      end
  | None => inr (finish_step st s p None (ls_toolResults st) (ls_world st))
  end.

(** [for (const step of this.steps) { ... }]. *)
Fixpoint run_steps (metadata : Metadata) (ss : list ChainStep) (st : LoopState)
  : (Js.thrown * LoopState) + LoopState :=
  match ss with
  | [] => inr st
  | s :: rest =>
      match run_step metadata st s with
      | inr st' => run_steps metadata rest st'
      | inl failure => inl failure
      end
  end.

Definition no_steps_message : Js.str :=
  Js.lit "No steps registered in the LangChain workflow.".

(** The state the loop starts from: the query is already in memory. *)
Definition seed (wf : LangChainWorkflow) (query : Js.str) (w : World) : LoopState :=
  let (now, w') := date_now w in
  {| ls_memory := ConversationMemory.append (memory wf) ConversationMemory.user query now;
     ls_toolResults := [];
     ls_trace := [];
     ls_previousOutput := query;
     ls_world := w' |}.

Definition with_memory (wf : LangChainWorkflow) (m : ConversationMemory.t) : LangChainWorkflow :=
  {| tools := tools wf; steps := steps wf; memory := m |}.

(** [invoke(query, metadata)]: the outcome, the engine and the world
    afterwards. An omitted [metadata] is the empty object. *)
Definition invoke (wf : LangChainWorkflow) (query : Js.str) (metadata : Metadata)
    (w : World) : (Js.thrown + WorkflowResult) * LangChainWorkflow * World :=
  match steps wf with
  | [] => (inl (Js.Error no_steps_message), wf, w)
  | _ :: _ =>
      match run_steps metadata (steps wf) (seed wf query w) with
      | inr st =>
          (inr {| final := ls_previousOutput st; trace := ls_trace st |},
           with_memory wf (ls_memory st), ls_world st)
      | inl (e, st) => (inl e, with_memory wf (ls_memory st), ls_world st)
      end
  end.

End Engine.


(** ** createDemoLangChain *)

Module Demo.

(** An ASCII letter in upper case; any other code unit as it is. *)
Definition to_upper_ascii (c : Js.char) : Js.char :=
  if ((97 <=? c) && (c <=? 122))%N then (c - 32)%N else c.

(** An ASCII pattern character against an input code unit under the [i]
    flag: no code unit outside ASCII is folded onto an ASCII one. *)
Definition eq_ignore_case (p x : Js.char) : bool :=
  (to_upper_ascii p =? to_upper_ascii x)%N.

Fixpoint strip_prefix_ignore_case (p s : Js.str) : option Js.str :=
  match p with
  | [] => Some s
  | c :: p' =>
      match s with
      | d :: s' => if eq_ignore_case c d then strip_prefix_ignore_case p' s' else None
      | [] => None
      end
  end.

Definition is_ascii_letter (c : Js.char) : bool :=
  (((65 <=? c) && (c <=? 90)) || ((97 <=? c) && (c <=? 122)))%N.

(** The class [[a-z\s]] under the [i] flag. *)
Definition is_location_char (c : Js.char) : bool :=
  is_ascii_letter c || Js.is_white_space c.

Fixpoint take_while {A} (p : A -> bool) (l : list A) : list A :=
  match l with
  | [] => []
  | x :: l' => if p x then x :: take_while p l' else []
  end.

(** A match of [/location:([a-z\s]+)/i] at the start of [s]: its group,
    the longest run of class characters after the colon. *)
Definition match_location (s : Js.str) : option Js.str :=
  match strip_prefix_ignore_case (Js.lit "location:") s with
  | Some rest =>
      match take_while is_location_char rest with
      | [] => None
      | group => Some group
      end
  | None => None
  end.

(** [/location:([a-z\s]+)/i.exec(s)?.[1]]: the group of the leftmost
    match. *)
Fixpoint exec_location (s : Js.str) : option Js.str :=
  match match_location s with
  | Some group => Some group
  | None =>
      match s with
      | [] => None
      | _ :: s' => exec_location s'
      end
  end.

(** [s] starts with [location:] in any case, followed by at least one
    letter or white space; [group] is the longest run of them. *)
Definition follows_label (s group : Js.str) : Prop :=
  exists label rest,
    s = label ++ rest
    /\ List.map to_upper_ascii label = Js.lit "LOCATION:"
    /\ group = take_while is_location_char rest
    /\ group <> [].

(** [exec(input)?.[1]?.trim() ?? "the station"]. *)
Definition weather_location (input : Js.str) : Js.str :=
  match exec_location input with
  | Some group => Js.trim group
  | None => Js.lit "the station"
  end.

Definition forecast (location : Js.str) : Js.str :=
  Js.lit "Simulated forecast for " ++ location ++ Js.lit ": clear skies, light tailwind.".

Section Handlers.

Context {World Metadata : Type}.

(** The handler of the [weather] tool. *)
Definition weather : @ToolHandler World Metadata :=
  fun input _ w => (inr (forecast (weather_location input)), w).

(** The handler of the [memory] tool. *)
Definition memory_handler : @ToolHandler World Metadata :=
  fun _ context w =>
    match Js.slice (ConversationMemory.snapshot (ctx_memory context)) (-1) !! 0%nat with
    | None => (inr (Js.lit "Memory empty."), w)
    | Some snapshot =>
        (inr (ConversationMemory.role_name (ConversationMemory.role snapshot)
                ++ Js.lit " said " ++ [Js.DQUOTE] ++ ConversationMemory.text snapshot
                ++ [Js.DQUOTE]), w)
    end.

Definition assess_template : Js.str :=
  Js.join [Js.LF]
    [Js.lit "User query: {{input}}";
     Js.lit "Recent memory: {{memory}}";
     Js.lit "Known tool results: {{toolResults}}";
     Js.lit "Metadata: {{metadata}}";
     Js.lit "Summarize intent in one sentence."].

Definition weather_template : Js.str :=
  Js.join [Js.LF]
    [Js.lit "Intent summary: {{input}}";
     Js.lit "If the user references weather, call the weather tool with the extracted location.";
     Js.lit "Otherwise, acknowledge the current intent plainly."].

Definition compose_template : Js.str :=
  Js.join [Js.LF]
    [Js.lit "Weather insights: {{toolResults}}";
     Js.lit "Final instruction: Provide a concise operational recommendation."].

(** [.addStep(...)] on the outcome of the calls before. *)
Definition and_addStep (r : Js.thrown + @LangChainWorkflow World Metadata)
    (name template : Js.str) (toolName : option Js.str) : Js.thrown + LangChainWorkflow :=
  match r with
  | inr wf => addStep wf name template toolName
  | inl e => inl e
  end.

(** [createDemoLangChain()]: the workflow, or what an [addStep] threw. *)
Definition createDemoLangChain : Js.thrown + @LangChainWorkflow World Metadata :=
  and_addStep
    (and_addStep
       (addStep
          (registerTool
             (registerTool (create (Some 8%Z))
                (Js.lit "weather") (Js.lit "Fetches weather data") weather)
             (Js.lit "memory") (Js.lit "Surfaces the most recent memory entry") memory_handler)
          (Js.lit "Assess request") assess_template (Some (Js.lit "memory")))
       (Js.lit "Run weather check") weather_template (Some (Js.lit "weather")))
    (Js.lit "Compose response") compose_template None.

Definition memory_tool : @LangChainTool World Metadata :=
  {| tool_name := Js.lit "memory";
     tool_description := Js.lit "Surfaces the most recent memory entry";
     tool_handler := memory_handler |}.

Definition weather_tool : @LangChainTool World Metadata :=
  {| tool_name := Js.lit "weather";
     tool_description := Js.lit "Fetches weather data";
     tool_handler := weather |}.

(** The three steps [createDemoLangChain] adds. *)
Definition demo_steps : list (@ChainStep World Metadata) :=
  [{| step_name := Js.lit "Assess request";
      step_prompt := {| PromptTemplate.template := assess_template |};
      step_tool := Some memory_tool |};
   {| step_name := Js.lit "Run weather check";
      step_prompt := {| PromptTemplate.template := weather_template |};
      step_tool := Some weather_tool |};
   {| step_name := Js.lit "Compose response";
      step_prompt := {| PromptTemplate.template := compose_template |};
      step_tool := None |}].

(** The engine [createDemoLangChain] returns. *)
Definition demo_engine : @LangChainWorkflow World Metadata :=
  {| tools := <[Js.lit "memory" := memory_tool]> (<[Js.lit "weather" := weather_tool]> ∅);
     steps := demo_steps;
     memory := ConversationMemory.create (Some 8%Z) |}.

End Handlers.

End Demo.

(** ** Definitions that follow the specification's words *)

Module Spec.

(** The most recent [n] elements of a chronological list, oldest first. *)
Definition most_recent {A} (n : nat) (l : list A) : list A :=
  rev (take n (rev l)).

Definition has_line_feed (s : Js.str) : bool := existsb (N.eqb Js.LF) s.

(** The last newline-separated segment: what follows the last line feed,
    or the whole text when it has none. *)
Fixpoint last_segment (p : Js.str) : Js.str :=
  match p with
  | [] => []
  | c :: p' =>
      if has_line_feed p' then last_segment p'
      else if (c =? Js.LF)%N then p' else p
  end.

Definition starts_with_white_space (s : Js.str) : bool :=
  match s with c :: _ => Js.is_white_space c | [] => false end.

(** Every run of white space collapsed to a single space: a white-space
    code unit followed by another one goes, the last of a run becomes a
    space. *)
Fixpoint collapsed (s : Js.str) : Js.str :=
  match s with
  | [] => []
  | c :: s' =>
      if Js.is_white_space c
      then if starts_with_white_space s' then collapsed s' else 32%N :: collapsed s'
      else c :: collapsed s'
  end.

Definition strip_trailing (s : Js.str) : Js.str :=
  fold_right (fun c acc => if Js.is_white_space c && negb (Js.truthy acc) then [] else c :: acc)
             [] s.

(** White space removed from both ends. *)
Definition trimmed (s : Js.str) : Js.str :=
  strip_trailing (Js.drop_while Js.is_white_space s).

(** The response synthesized from a formatted prompt and an optional
    tool result. *)
Definition synthesized (p : Js.str) (r : option Js.str) : Js.str :=
  let body := match r with
              | Some t => last_segment p ++ Js.lit " | " ++ t
              | None => last_segment p
              end in
  match trimmed (collapsed body) with
  | [] => Js.lit "No actionable insight produced."
  | text => text
  end.

(** A placeholder for [key]: [{{], white space, the key, white space,
    [}}]. *)
Definition is_placeholder (key m : Js.str) : Prop :=
  exists ws1 ws2,
    forallb Js.is_white_space ws1 = true
    /\ forallb Js.is_white_space ws2 = true
    /\ m = Js.lit "{{" ++ ws1 ++ key ++ ws2 ++ Js.lit "}}".

(** Every placeholder for [key] in [text] replaced with [value], from the
    left; [fuel] bounds the number of code units looked at. *)
Fixpoint substitute_upto (fuel : nat) (key value text : Js.str) : Js.str :=
  match fuel with
  | O => text
  | S fuel' =>
      match text with
      | [] => []
      | c :: text' =>
          match Js.match_placeholder key text with
          | Some after => value ++ substitute_upto fuel' key value after
          | None => c :: substitute_upto fuel' key value text'
          end
      end
  end.

Definition substitute (key value text : Js.str) : Js.str :=
  substitute_upto (length text) key value text.

(** A template formatted with a list of bindings, one key after the
    other. *)
Definition formatted (template : Js.str) (variables : list (Js.str * Js.str)) : Js.str :=
  fold_left (fun text kv => substitute kv.1 kv.2 text) variables template.

Definition dollar_free (value : Js.str) : bool :=
  forallb (fun c => negb (c =? Js.DOLLAR)%N) value.

End Spec.

(** One [append(role, text)] call, with the instant it is made at. *)
Definition append_call : Type := ConversationMemory.Role * Js.str * Z.

Definition entry_of (c : append_call) : ConversationMemory.MemoryEntry :=
  {| ConversationMemory.role := c.1.1;
     ConversationMemory.text := c.1.2;
     ConversationMemory.timestamp := c.2 |}.

Definition do_append (m : ConversationMemory.t) (c : append_call) : ConversationMemory.t :=
  ConversationMemory.append m c.1.1 c.1.2 c.2.

(** The memory after a sequence of calls on a fresh one. *)
Definition after_appends (limit : Z) (calls : list append_call) : ConversationMemory.t :=
  fold_left do_append calls (ConversationMemory.create (Some limit)).

(** The [append] calls a run makes for the responses of a trace, given
    the instants they are made at. *)
Definition assistant_calls (tr : list StepTrace) (stamps : list Z) : list append_call :=
  zip_with (fun e now => (ConversationMemory.assistant, response e, now)) tr stamps.

(** A run that breaks at a step: the steps [pre] before it came back and
    left the state [st]; the handler of its tool [t] then threw [e],
    leaving the world [w1]. *)
Definition breaks_at {World Metadata : Type} (date_now : World -> Z * World)
    (metadata_json : Metadata -> Js.str)
    (wf : LangChainWorkflow) (query : Js.str) (md : Metadata) (w : World)
    (pre : list ChainStep) (s : ChainStep) (post : list ChainStep)
    (t : LangChainTool) (st : LoopState) (e : Js.thrown) (w1 : World) : Prop :=
  steps wf = pre ++ s :: post
  /\ step_tool s = Some t
  /\ run_steps date_now metadata_json md pre (seed date_now wf query w) = inr st
  /\ tool_handler t (step_prompt_text metadata_json md st s) (context_of md st) (ls_world st)
     = (inl e, w1).

(** The engine with one more step at the end of its list. *)
Definition with_step {World Metadata : Type} (wf : @LangChainWorkflow World Metadata)
    (name template : Js.str) (tool : option LangChainTool) : LangChainWorkflow :=
  {| tools := tools wf;
     steps := steps wf ++ [{| step_name := name;
                              step_prompt := {| PromptTemplate.template := template |};
                              step_tool := tool |}];
     memory := memory wf |}.

(** A tool whose handler always returns. *)
Definition never_throws {World Metadata : Type} (t : @LangChainTool World Metadata) : Prop :=
  forall input context w, exists x w', tool_handler t input context w = (inr x, w').

Definition step_never_throws {World Metadata : Type} (s : @ChainStep World Metadata) : Prop :=
  match step_tool s with
  | Some t => never_throws t
  | None => True
  end.

(** ** Shapes of strings *)

Module Shape.

(** No white space but U+0020, and never two spaces in a row. *)
Fixpoint single_spaced (s : Js.str) : bool :=
  match s with
  | [] => true
  | c :: s' =>
      (if Js.is_white_space c
       then (c =? 32)%N && negb (Spec.starts_with_white_space s')
       else true)
      && single_spaced s'
  end.

Definition ends_with_white_space (s : Js.str) : bool :=
  Spec.starts_with_white_space (rev s).

(** Not empty, single-spaced, no white space at either end. *)
Definition tidy (s : Js.str) : bool :=
  Js.truthy s && single_spaced s
  && negb (Spec.starts_with_white_space s) && negb (ends_with_white_space s).

(** [c] does not occur in [s]. *)
Definition free_of (c : Js.char) (s : Js.str) : bool :=
  forallb (fun x => negb (x =? c)%N) s.

Definition CLOSE_BRACE : Js.char := 125%N.

(** [{{] occurs in [s]. *)
Fixpoint has_double_brace (s : Js.str) : bool :=
  match s with
  | [] => false
  | c :: s' =>
      match s' with
      | d :: _ => ((c =? 123)%N && (d =? 123)%N) || has_double_brace s'
      | [] => false
      end
  end.

End Shape.

(** The entries a successful run appends: the query, then one response
    per trace entry. *)
Definition run_calls (query : Js.str) (now : Z) (tr : list StepTrace) (stamps : list Z)
  : list append_call :=
  (ConversationMemory.user, query, now) :: assistant_calls tr stamps.


(** The name of the tool bound to a step. *)
Definition bound_name {World Metadata : Type} (s : @ChainStep World Metadata)
  : option Js.str :=
  tool_name <$> step_tool s.

(** What is read under the name [n] after the steps of [pairs], each with
    its trace entry, when [before] was read before them: the [toolResult]
    of the last step bound to a tool of that name. *)
Fixpoint last_result_for {World Metadata : Type} (n : Js.str)
    (pairs : list (@ChainStep World Metadata * StepTrace)) (before : option Js.str)
  : option Js.str :=
  match pairs with
  | [] => before
  | (s, e) :: rest =>
      last_result_for n rest
        (if decide (bound_name s = Some n) then toolResult e else before)
  end.

(** The engine after [invoke], whatever the outcome. *)
Definition engine_after {World Metadata : Type}
    (out : (Js.thrown + WorkflowResult) * @LangChainWorkflow World Metadata * World)
  : LangChainWorkflow := out.1.2.

(** Several [invoke] calls in a row on one engine, each on the engine and
    the world the one before left: the outcomes, the engine and the world
    at the end. *)
Fixpoint invoke_each {World Metadata : Type} (date_now : World -> Z * World)
    (metadata_json : Metadata -> Js.str) (wf : @LangChainWorkflow World Metadata)
    (md : Metadata) (queries : list Js.str) (w : World)
  : list (Js.thrown + WorkflowResult) * LangChainWorkflow * World :=
  match queries with
  | [] => ([], wf, w)
  | query :: rest =>
      let out := invoke date_now metadata_json wf query md w in
      let later := invoke_each date_now metadata_json out.1.2 md rest out.2 in
      (out.1.1 :: later.1.1, later.1.2, later.2)
  end.

(** Who said what, in the order of the memory. *)
Definition said (m : ConversationMemory.t) : list (ConversationMemory.Role * Js.str) :=
  List.map (fun e => (ConversationMemory.role e, ConversationMemory.text e))
           (ConversationMemory.snapshot m).

(** What one successful turn says: the query, then the responses. *)
Definition turn_entries (query : Js.str) (r : WorkflowResult)
  : list (ConversationMemory.Role * Js.str) :=
  (ConversationMemory.user, query)
    :: List.map (fun e => (ConversationMemory.assistant, response e)) (trace r).

(** ** Sample engines

    The workflow of [tests/langchainWorkflow.test.ts] ([runSample]) and a
    few small ones, over a world that is a clock. *)

Module Sample.

Definition World : Type := Z.

Definition date_now (w : World) : Z * World := (w, (w + 1)%Z).

Definition Metadata : Type := Js.obj Js.str.

Definition metadata_json : Metadata -> Js.str := Js.json_stringify.

Definition Workflow : Type := @LangChainWorkflow World Metadata.

Definition Handler : Type := @ToolHandler World Metadata.

(** [(input) => `echo:${input.slice(-30)}`]. *)
Definition echo : Handler :=
  fun input _ w => (inr (Js.lit "echo:" ++ Js.slice input (-30)), w).

(** A handler that throws [new Error("boom")]. *)
Definition failing : Handler :=
  fun _ _ w => (inl (Js.Error (Js.lit "boom")), w).

(** Chaining of [addStep] calls: a throw ends the chain. *)
Definition then_addStep (r : Js.thrown + Workflow) (name template : Js.str)
    (toolName : option Js.str) : Js.thrown + Workflow :=
  match r with
  | inr wf => addStep wf name template toolName
  | inl e => inl e
  end.

Definition echo_template : Js.str :=
  Js.join [Js.LF] [Js.lit "Memory recap: {{memory}}";
                   Js.lit "Last user request: {{input}}";
                   Js.lit "Respond with tool output only."].

Definition closing_template : Js.str :=
  Js.join [Js.LF] [Js.lit "Tool results: {{toolResults}}";
                   Js.lit "Deliver a one sentence reply for the user."].

(** The workflow [runSample] builds. *)
Definition sample_build : Js.thrown + Workflow :=
  then_addStep
    (addStep (registerTool (create (Some 4%Z)) (Js.lit "echo") (Js.lit "repeats the input") echo)
             (Js.lit "Echo latest message") echo_template (Some (Js.lit "echo")))
    (Js.lit "Compose closing") closing_template None.

Definition unwrap (r : Js.thrown + Workflow) : Workflow :=
  match r with inr wf => wf | inl _ => create None end.

Definition sample : Workflow := unwrap sample_build.

Definition sample_metadata : Metadata := [(Js.lit "origin", Js.lit "unit-test")].

Definition sample_query : Js.str := Js.lit "Summarize station status".

(** A first step that succeeds and a second one whose tool throws. *)
Definition breaking : Workflow :=
  unwrap
    (then_addStep
       (addStep (registerTool
                   (registerTool (create (Some 4%Z)) (Js.lit "echo") (Js.lit "repeats the input") echo)
                   (Js.lit "bad") (Js.lit "always fails") failing)
                (Js.lit "first") (Js.lit "{{input}}") (Some (Js.lit "echo")))
       (Js.lit "second") (Js.lit "{{input}}") (Some (Js.lit "bad"))).

(** A tool registered under the name [__proto__], and a second step that
    prints the tool results. *)
Definition proto : Workflow :=
  unwrap
    (then_addStep
       (addStep (registerTool (create None) (Js.lit "__proto__") (Js.lit "d") echo)
                (Js.lit "first") (Js.lit "{{input}}") (Some (Js.lit "__proto__")))
       (Js.lit "second") (Js.lit "{{toolResults}}") None).

(** One step that repeats its input. *)
Definition repeat : Workflow :=
  unwrap (addStep (create None) (Js.lit "repeat") (Js.lit "{{input}}") None).

(** The outcome of [runSample("Summarize station status")] from an idle
    clock. *)
Definition sample_run : (Js.thrown + WorkflowResult) * Workflow * World :=
  invoke date_now metadata_json sample sample_query sample_metadata 0%Z.

Definition sample_result : WorkflowResult :=
  match sample_run.1.1 with
  | inr r => r
  | inl _ => {| final := []; trace := [] |}
  end.

(** The pieces of [breaking]: its two steps, the failing tool, and the
    state its first step leaves. *)
Definition breaking_first : list (@ChainStep World Metadata) := take 1 (steps breaking).

Definition breaking_second : @ChainStep World Metadata :=
  default {| step_name := []; step_prompt := {| PromptTemplate.template := [] |};
             step_tool := None |}
          (steps breaking !! 1%nat).

Definition bad_tool : @LangChainTool World Metadata :=
  {| tool_name := Js.lit "bad"; tool_description := Js.lit "always fails";
     tool_handler := failing |}.

Definition breaking_state : @LoopState World :=
  match run_steps date_now metadata_json sample_metadata breaking_first
          (seed date_now breaking sample_query 0%Z) with
  | inr st => st
  | inl (_, st) => st
  end.

(** A window of two entries and one step that repeats its input, invoked
    three times in a row; every call returns. *)
Definition narrow : Workflow :=
  unwrap (addStep (create (Some 2%Z)) (Js.lit "repeat") (Js.lit "{{input}}") None).

Definition invoke_next (state : Workflow * World) (query : Js.str) : Workflow * World :=
  let out := invoke date_now metadata_json state.1 query sample_metadata state.2 in
  (out.1.2, out.2).

Definition narrow_after_three : Workflow * World :=
  fold_left invoke_next [Js.lit "first"; Js.lit "second"; Js.lit "third"] (narrow, 0%Z).

Definition three_calls : list append_call :=
  [(ConversationMemory.user, Js.lit "a", 1%Z);
   (ConversationMemory.assistant, Js.lit "b", 2%Z);
   (ConversationMemory.user, Js.lit "c", 3%Z)].

End Sample.

(** ** Further sample values *)

Module Cases.

(** A memory of capacity two that has seen three appends. *)
Definition memory_two : ConversationMemory.t := after_appends 2 Sample.three_calls.

(** A memory without capacity. *)
Definition no_memory : ConversationMemory.t := ConversationMemory.create (Some 0%Z).

Definition plain_template : PromptTemplate.t :=
  {| PromptTemplate.template := Js.lit "Nothing to fill in." |}.

Definition hello_template : PromptTemplate.t :=
  {| PromptTemplate.template := Js.lit "Hello {{name}}, {{unbound}}" |}.

Definition name_binding : Js.obj Js.str := [(Js.lit "name", Js.lit "Ada")].

Definition closing : PromptTemplate.t :=
  {| PromptTemplate.template := Sample.closing_template |}.

(** A value that brings a line break, braces and a [$] pattern. *)
Definition noisy_binding : Js.obj Js.str :=
  [(Js.lit "toolResults", Js.lit "a" ++ [Js.LF] ++ Js.lit "b }} $' {{toolResults}}")].

Definition echo_engine : Sample.Workflow :=
  registerTool (create None) (Js.lit "echo") (Js.lit "repeats the input") Sample.echo.

Definition sample_first : list (@ChainStep Sample.World Sample.Metadata) :=
  take 1 (steps Sample.sample).

Definition sample_closing : @ChainStep Sample.World Sample.Metadata :=
  {| step_name := Js.lit "Compose closing";
     step_prompt := closing;
     step_tool := None |}.

Definition sample_echo : @ChainStep Sample.World Sample.Metadata :=
  {| step_name := Js.lit "Echo latest message";
     step_prompt := {| PromptTemplate.template := Sample.echo_template |};
     step_tool := Some {| tool_name := Js.lit "echo";
                          tool_description := Js.lit "repeats the input";
                          tool_handler := Sample.echo |} |}.

(** The state [runSample] ends its loop in. *)
Definition sample_state : @LoopState Sample.World :=
  match run_steps Sample.date_now Sample.metadata_json Sample.sample_metadata
          (steps Sample.sample)
          (seed Sample.date_now Sample.sample Sample.sample_query 0%Z) with
  | inr st => st
  | inl (_, st) => st
  end.

Definition demo : Sample.Workflow := Demo.demo_engine.

(** Three turns on [Sample.narrow], and their results. *)
Definition three_queries : list Js.str := [Js.lit "first"; Js.lit "second"; Js.lit "third"].

Definition three_turns
  : list (Js.thrown + WorkflowResult) * Sample.Workflow * Sample.World :=
  invoke_each Sample.date_now Sample.metadata_json Sample.narrow Sample.sample_metadata
    three_queries 0%Z.

Definition three_results : list WorkflowResult :=
  omap (fun o => match o with inr r => Some r | inl _ => None end) three_turns.1.1.

End Cases.

(** * Properties *)

(** ** ConversationMemory *)

Section MemoryFacts.

Import ConversationMemory.

Lemma most_recent_drop {A} (n : nat) (l : list A) :
  Spec.most_recent n l = drop (length l - n) l.
Proof.
  unfold Spec.most_recent. rewrite firstn_rev, rev_involutive. reflexivity.
Qed.

Lemma slice_nonneg {A} (l : list A) (k : nat) :
  k <= length l -> Js.slice l (Z.of_nat k) = drop k l.
Proof.
  intros Hk. unfold Js.slice.
  destruct (Z.of_nat k <? 0)%Z eqn:E; [lia|].
  rewrite Z.min_l by lia. rewrite Nat2Z.id. reflexivity.
Qed.

Lemma append_limit (m : t) r txt now : limit (append m r txt now) = limit m.
Proof. unfold append. destruct (_ <? _)%Z; reflexivity. Qed.

(** With a capacity that is a count, [append] keeps the last [limit]
    entries of the extended history. *)
Lemma append_history (m : t) r txt now :
  (0 <= limit m)%Z ->
  history (append m r txt now) =
  Spec.most_recent (Z.to_nat (limit m))
    (history m ++ [{| role := r; text := txt; timestamp := now |}]).
Proof.
  intros Hl. rewrite most_recent_drop. unfold append.
  set (pushed := history m ++ _).
  destruct (limit m <? Z.of_nat (length pushed))%Z eqn:E; cbn [history].
  - replace (Z.of_nat (length pushed) - limit m)%Z
      with (Z.of_nat (length pushed - Z.to_nat (limit m))) by lia.
    apply slice_nonneg. lia.
  - replace (length pushed - Z.to_nat (limit m)) with 0 by lia. reflexivity.
Qed.

Lemma most_recent_snoc {A} (n : nat) (l : list A) (x : A) :
  Spec.most_recent n (Spec.most_recent n l ++ [x]) = Spec.most_recent n (l ++ [x]).
Proof.
  rewrite !most_recent_drop. rewrite !length_app, length_drop. cbn [length].
  destruct (decide (length l <= n)) as [Hle|Hgt].
  - replace (length l - n) with 0 by lia. cbn [drop].
    replace (length l - 0) with (length l) by lia. reflexivity.
  - replace (length l - (length l - n) + 1 - n) with 1 by lia.
    destruct n as [|n].
    + rewrite !drop_ge; [reflexivity | rewrite length_app; cbn; lia |].
      rewrite length_app, length_drop. cbn. lia.
    + rewrite !drop_app_le by (rewrite ?length_drop; lia).
      rewrite drop_drop. f_equal. f_equal. lia.
Qed.

Lemma after_appends_limit (lim : Z) (calls : list append_call) :
  limit (after_appends lim calls) = lim.
Proof.
  unfold after_appends.
  induction calls as [|c calls IH] using rev_ind; [reflexivity|].
  rewrite fold_left_app. cbn. unfold do_append at 1. rewrite append_limit. exact IH.
Qed.

Lemma after_appends_history (lim : Z) (calls : list append_call) :
  (0 <= lim)%Z ->
  history (after_appends lim calls) =
  Spec.most_recent (Z.to_nat lim) (List.map entry_of calls).
Proof.
  intros Hl. induction calls as [|c calls IH] using rev_ind.
  - rewrite most_recent_drop. reflexivity.
  - unfold after_appends in *. rewrite fold_left_app. cbn [fold_left].
    unfold do_append at 1. rewrite append_history.
    + fold (after_appends lim calls). rewrite after_appends_limit.
      unfold after_appends. rewrite IH. rewrite List.map_app. cbn [List.map].
      apply most_recent_snoc.
    + fold (after_appends lim calls). rewrite after_appends_limit. exact Hl.
Qed.

Lemma most_recent_length {A} (n : nat) (l : list A) :
  length (Spec.most_recent n l) <= n.
Proof. rewrite most_recent_drop, length_drop. lia. Qed.

(** C1. Bounded memory: after any sequence of [append] calls on a memory
    created with a capacity [lim] (a count of entries), the snapshot holds
    at most [lim] entries, and they are the most recent [lim] appended
    entries in chronological order, whatever their roles. *)
Theorem append_bounded_memory (lim : Z) (calls : list append_call) :
  (0 <= lim)%Z ->
  (Z.of_nat (length (snapshot (after_appends lim calls))) <= lim)%Z
  /\ snapshot (after_appends lim calls)
     = Spec.most_recent (Z.to_nat lim) (List.map entry_of calls).
Proof.
  intros Hl. unfold snapshot. rewrite after_appends_history by exact Hl.
  split; [|reflexivity].
  pose proof (most_recent_length (Z.to_nat lim) (List.map entry_of calls)). lia.
Qed.

End MemoryFacts.

(** ** Strings: [summarize] and [generateResponse] *)

Section StringFacts.

Lemma truthy_app_l (a b : Js.str) : Js.truthy a = true -> Js.truthy (a ++ b) = true.
Proof. destruct a; [discriminate | reflexivity]. Qed.

Lemma join_truthy (sep : Js.str) (s : Js.str) (l : list Js.str) :
  Js.truthy s = true -> Js.truthy (Js.join sep (s :: l)) = true.
Proof.
  intros Hs. destruct l as [|s' l]; cbn [Js.join]; [exact Hs|].
  apply truthy_app_l, Hs.
Qed.

Lemma render_truthy (e : ConversationMemory.MemoryEntry) :
  Js.truthy (ConversationMemory.render e) = true.
Proof. reflexivity. Qed.

(** C9, as the code has it. [summarize] reads the history and returns a
    string, leaving the memory as it is: for an empty memory the string
    is the sentinel [Conversation just started.], capital and full stop
    included, and otherwise it is the entries, each rendered as
    [[role] text], joined by line feeds in chronological order. *)
Theorem summarize_spec (m : ConversationMemory.t) :
  ConversationMemory.summarize m =
  match ConversationMemory.history m with
  | [] => Js.lit "Conversation just started."
  | es =>
      Js.join [Js.LF]
        (List.map (fun e => Js.lit "[" ++ ConversationMemory.role_name (ConversationMemory.role e)
                              ++ Js.lit "] " ++ ConversationMemory.text e) es)
  end.
Proof.
  unfold ConversationMemory.summarize.
  destruct (ConversationMemory.history m) as [|e es]; [reflexivity|].
  cbn [List.map]. unfold Js.or_else.
  rewrite (join_truthy [Js.LF] (ConversationMemory.render e)) by apply render_truthy.
  reflexivity.
Qed.

(** C9 as the specification words it fails: the sentinel of an empty
    memory is [Conversation just started.], which is not the string
    [conversation just started]. *)
Lemma summarize_sentinel_differs :
  ConversationMemory.summarize (ConversationMemory.create None)
  = Js.lit "Conversation just started."
  /\ ConversationMemory.summarize (ConversationMemory.create None)
     <> Js.lit "conversation just started".
Proof. split; [reflexivity | vm_compute; discriminate]. Qed.

(** *** The last line of a prompt *)

Lemma has_line_feed_cons (c : Js.char) (p : Js.str) :
  Spec.has_line_feed (c :: p) = (c =? Js.LF)%N || Spec.has_line_feed p.
Proof. unfold Spec.has_line_feed. cbn [existsb]. rewrite N.eqb_sym. reflexivity. Qed.

Lemma last_segment_no_line_feed (p : Js.str) :
  Spec.has_line_feed p = false -> Spec.last_segment p = p.
Proof.
  destruct p as [|c p]; [reflexivity|]. rewrite has_line_feed_cons.
  intros H. apply orb_false_elim in H as [Hc Hp].
  cbn [Spec.last_segment]. rewrite Hp, Hc. reflexivity.
Qed.

Lemma split_no_line_feed (p : Js.str) :
  Spec.has_line_feed p = false -> Js.split Js.LF p = [p].
Proof.
  induction p as [|c p IH]; [reflexivity|]. rewrite has_line_feed_cons.
  intros H. apply orb_false_elim in H as [Hc Hp].
  cbn [Js.split]. rewrite Hc, (IH Hp). reflexivity.
Qed.

Lemma split_not_nil (p : Js.str) : Js.split Js.LF p <> [].
Proof.
  destruct p as [|c p]; [discriminate|]. cbn [Js.split].
  destruct (c =? Js.LF)%N; [discriminate|].
  destruct (Js.split Js.LF p); discriminate.
Qed.

Lemma split_line_feed (p : Js.str) :
  Spec.has_line_feed p = true ->
  exists s1 s2 rest, Js.split Js.LF p = s1 :: s2 :: rest.
Proof.
  induction p as [|c p IH]; [discriminate|]. rewrite has_line_feed_cons.
  intros H. cbn [Js.split]. destruct (c =? Js.LF)%N eqn:Hc.
  - pose proof (split_not_nil p) as Hn.
    destruct (Js.split Js.LF p) as [|s l]; [congruence|]. eauto.
  - cbn [orb] in H. destruct (IH H) as (s1 & s2 & rest & ->). eauto.
Qed.

Lemma split_last (p : Js.str) :
  last (Js.split Js.LF p) = Some (Spec.last_segment p).
Proof.
  induction p as [|c p IH]; [reflexivity|].
  cbn [Js.split Spec.last_segment].
  destruct (Spec.has_line_feed p) eqn:Hp.
  - destruct (split_line_feed p Hp) as (s1 & s2 & rest & E).
    rewrite E in *. destruct (c =? Js.LF)%N; exact IH.
  - rewrite (split_no_line_feed p Hp).
    destruct (c =? Js.LF)%N; reflexivity.
Qed.

Lemma slice_last {A} (l : list A) : Js.slice l (-1) !! 0%nat = last l.
Proof.
  unfold Js.slice. cbn [Z.ltb Z.compare].
  rewrite lookup_drop, last_lookup. f_equal. lia.
Qed.

Lemma last_line (p : Js.str) :
  Js.nullish (Js.slice (Js.split Js.LF p) (-1) !! 0%nat) p = Spec.last_segment p.
Proof. rewrite slice_last, split_last. reflexivity. Qed.

(** *** Collapsing white space and trimming *)

Lemma collapsed_run (c : Js.char) (s : Js.str) :
  Js.is_white_space c = true ->
  Spec.collapsed (c :: s) = 32%N :: Spec.collapsed (Js.drop_while Js.is_white_space s).
Proof.
  revert c. induction s as [|d s IH]; intros c Hc.
  - cbn. rewrite Hc. reflexivity.
  - change (Spec.collapsed (c :: d :: s))
      with (if Js.is_white_space c
            then if Js.is_white_space d then Spec.collapsed (d :: s)
                 else 32%N :: Spec.collapsed (d :: s)
            else c :: Spec.collapsed (d :: s)).
    rewrite Hc. cbn [Js.drop_while].
    destruct (Js.is_white_space d) eqn:Hd; [apply IH, Hd | reflexivity].
Qed.

Lemma replace_runs_collapsed (s : Js.str) :
  Js.replace_runs Js.is_white_space (Js.lit " ") false s = Spec.collapsed s
  /\ Js.replace_runs Js.is_white_space (Js.lit " ") true s
     = Spec.collapsed (Js.drop_while Js.is_white_space s).
Proof.
  induction s as [|c s [IH1 IH2]]; [split; reflexivity|].
  cbn [Js.replace_runs Js.drop_while].
  destruct (Js.is_white_space c) eqn:Hc.
  - rewrite IH2. split; [|reflexivity].
    rewrite collapsed_run by exact Hc. reflexivity.
  - rewrite IH1. cbn [Spec.collapsed]. rewrite Hc. split; reflexivity.
Qed.

Lemma collapse_white_space_collapsed (s : Js.str) :
  Js.collapse_white_space s = Spec.collapsed s.
Proof. apply replace_runs_collapsed. Qed.

Lemma drop_while_app {A} (p : A -> bool) (a b : list A) :
  Js.drop_while p (a ++ b) =
  match Js.drop_while p a with [] => Js.drop_while p b | r => r ++ b end.
Proof.
  induction a as [|x a IH]; [reflexivity|]. cbn.
  destruct (p x); [exact IH | reflexivity].
Qed.

Lemma strip_trailing_rev (s : Js.str) :
  rev (Js.drop_while Js.is_white_space (rev s)) = Spec.strip_trailing s.
Proof.
  induction s as [|c s IH]; [reflexivity|].
  cbn [rev Spec.strip_trailing fold_right].
  fold (Spec.strip_trailing s). rewrite <- IH. rewrite drop_while_app.
  destruct (Js.drop_while Js.is_white_space (rev s)) as [|x r].
  - cbn. destruct (Js.is_white_space c); reflexivity.
  - rewrite rev_app_distr. cbn [rev app].
    destruct (rev r ++ [x]) eqn:E.
    + destruct (rev r); discriminate.
    + cbn [Js.truthy negb]. rewrite andb_false_r. reflexivity.
Qed.

Lemma trim_trimmed (s : Js.str) : Js.trim s = Spec.trimmed s.
Proof. unfold Js.trim, Spec.trimmed. apply strip_trailing_rev. Qed.

Lemma or_else_match (a b : Js.str) :
  Js.or_else a b = match a with [] => b | _ => a end.
Proof. destruct a; reflexivity. Qed.

(** The string [LangChainTool.invoke] returns is never empty. *)
Lemma wrap_truthy (name description result : Js.str) :
  Js.truthy (wrap name description result) = true.
Proof.
  unfold wrap. destruct name; [reflexivity|reflexivity].
Qed.

(** C7. The synthesized response: the last newline-separated segment of
    the prompt, followed, when there is a tool result, by [" | "] and the
    tool result; every run of white space collapsed to one space; the
    result trimmed; and the fallback [No actionable insight produced.]
    when nothing is left. A tool result is a wrapped string and so is not
    empty (an empty observation is falsy and would be passed over). *)
Theorem generateResponse_spec (p : Js.str) (r : option Js.str) :
  r <> Some [] ->
  generateResponse p r = Spec.synthesized p r.
Proof.
  intros Hr. unfold generateResponse, Spec.synthesized.
  rewrite last_line, or_else_match.
  destruct r as [[|c t]|]; [exfalso; apply Hr; reflexivity| |];
    cbn [Js.truthy Js.join app];
    rewrite trim_trimmed, collapse_white_space_collapsed;
    destruct (Spec.trimmed _); reflexivity.
Qed.

End StringFacts.

(** ** The placeholder pattern and [format] *)

Section TemplateFacts.

(** A value without [$] is inserted as it is. *)
Lemma get_substitution_plain (matched before after value : Js.str) :
  Spec.dollar_free value = true ->
  Js.get_substitution matched before after value = value.
Proof.
  unfold Spec.dollar_free.
  induction value as [|c value IH]; [reflexivity|]. cbn [forallb Js.get_substitution].
  intros H. apply andb_prop in H as [Hc Hv]. apply negb_true_iff in Hc.
  rewrite Hc, (IH Hv). reflexivity.
Qed.

Lemma strip_prefix_Some (p s r : Js.str) :
  Js.strip_prefix p s = Some r <-> s = p ++ r.
Proof.
  revert s. induction p as [|c p IH]; intros s; cbn [Js.strip_prefix app].
  - split; [intros [= ->]; reflexivity | intros ->; reflexivity].
  - destruct s as [|d s]; [split; discriminate|].
    destruct (c =? d)%N eqn:E.
    + apply N.eqb_eq in E as ->. rewrite IH. split; [intros ->; reflexivity|].
      intros [= ->]. reflexivity.
    + apply N.eqb_neq in E. split; [discriminate | intros [= -> _]; congruence].
Qed.

Lemma drop_while_split {A} (p : A -> bool) (l : list A) :
  exists pre, forallb p pre = true /\ l = pre ++ Js.drop_while p l.
Proof.
  induction l as [|x l (pre & Hp & Hl)]; [exists []; split; reflexivity|].
  cbn [Js.drop_while]. destruct (p x) eqn:E.
  - exists (x :: pre). cbn. rewrite E, Hp. split; [reflexivity | congruence].
  - exists []. split; reflexivity.
Qed.

Lemma drop_while_all {A} (p : A -> bool) (pre l : list A) :
  forallb p pre = true -> Js.drop_while p (pre ++ l) = Js.drop_while p l.
Proof.
  induction pre as [|x pre IH]; [reflexivity|]. cbn.
  intros H. apply andb_prop in H as [-> H]. apply IH, H.
Qed.

Lemma drop_while_head {A} (p : A -> bool) (x : A) (l : list A) :
  p x = false -> Js.drop_while p (x :: l) = x :: l.
Proof. intros H. cbn. rewrite H. reflexivity. Qed.

(** What the pattern matches is a placeholder. *)
Lemma match_placeholder_sound (key s after : Js.str) :
  Js.match_placeholder key s = Some after ->
  exists m, Spec.is_placeholder key m /\ s = m ++ after.
Proof.
  unfold Js.match_placeholder.
  destruct (Js.strip_prefix (Js.lit "{{") s) as [s1|] eqn:E1; [|discriminate].
  destruct (Js.strip_prefix key (Js.drop_while Js.is_white_space s1)) as [s2|] eqn:E2;
    [|discriminate].
  intros E3. apply strip_prefix_Some in E1, E2, E3.
  destruct (drop_while_split Js.is_white_space s1) as (ws1 & Hws1 & Hs1).
  destruct (drop_while_split Js.is_white_space s2) as (ws2 & Hws2 & Hs2).
  exists (Js.lit "{{" ++ ws1 ++ key ++ ws2 ++ Js.lit "}}"). split.
  - exists ws1, ws2. repeat split; assumption.
  - rewrite E1, Hs1, E2, Hs2, E3. rewrite <- !app_assoc. reflexivity.
Qed.

Lemma plain_key_head (key : Js.str) :
  Js.plain_key key = true ->
  forall l, Js.drop_while Js.is_white_space (key ++ l)
            = key ++ l \/ key = [].
Proof.
  intros Hk l. destruct key as [|c key]; [right; reflexivity|]. left.
  cbn [app]. apply drop_while_head.
  cbn [Js.plain_key forallb] in Hk. apply andb_prop in Hk as [Hc _].
  unfold Js.is_word_char in Hc. unfold Js.is_white_space.
  repeat match goal with
         | |- context [(c =? ?n)%N] => destruct (N.eqb_spec c n); [subst; discriminate|]
         end.
  cbn [orb]. destruct (N.leb_spec 0x2000 c); [|reflexivity].
  exfalso. repeat rewrite orb_true_iff in Hc. repeat rewrite andb_true_iff in Hc.
  repeat rewrite N.leb_le in Hc. rewrite N.eqb_eq in Hc. lia.
Qed.

(** For a plain key, the pattern matches every placeholder. *)
Lemma match_placeholder_complete (key m after : Js.str) :
  Js.plain_key key = true ->
  Spec.is_placeholder key m ->
  Js.match_placeholder key (m ++ after) = Some after.
Proof.
  intros Hk (ws1 & ws2 & H1 & H2 & ->). unfold Js.match_placeholder.
  assert (E1 : Js.strip_prefix (Js.lit "{{")
                 ((Js.lit "{{" ++ ws1 ++ key ++ ws2 ++ Js.lit "}}") ++ after)
               = Some (ws1 ++ key ++ ws2 ++ Js.lit "}}" ++ after)).
  { apply strip_prefix_Some. rewrite <- !app_assoc. reflexivity. }
  rewrite E1. rewrite drop_while_all by exact H1.
  assert (Hbrace : forall l, Js.drop_while Js.is_white_space (ws2 ++ Js.lit "}}" ++ l)
                             = Js.lit "}}" ++ l).
  { intros l. rewrite drop_while_all by exact H2. reflexivity. }
  destruct (plain_key_head key Hk (ws2 ++ Js.lit "}}" ++ after)) as [E | ->].
  - rewrite E.
    assert (E2 : Js.strip_prefix key (key ++ ws2 ++ Js.lit "}}" ++ after)
                 = Some (ws2 ++ Js.lit "}}" ++ after)) by (apply strip_prefix_Some; reflexivity).
    rewrite E2, Hbrace. apply strip_prefix_Some. reflexivity.
  - change ([] ++ ws2 ++ Js.lit "}}" ++ after) with (ws2 ++ Js.lit "}}" ++ after).
    rewrite Hbrace. cbn [Js.strip_prefix].
    change (Js.drop_while Js.is_white_space (Js.lit "}}" ++ after))
      with (Js.lit "}}" ++ after).
    apply strip_prefix_Some. reflexivity.
Qed.

Lemma match_placeholder_length (key s after : Js.str) :
  Js.match_placeholder key s = Some after ->
  exists m, s = m ++ after /\ 4 <= length m.
Proof.
  intros H. apply match_placeholder_sound in H as (m & (ws1 & ws2 & _ & _ & ->) & ->).
  eexists. split; [reflexivity|]. rewrite !length_app. cbn. lia.
Qed.

(** Passing over [k] code units leaves the scan where it would have been
    started [k] code units further. *)
Lemma replace_from_skip (key value : Js.str) (k : nat) (before s : Js.str) :
  k <= length s ->
  Js.replace_from key value k before s
  = Js.replace_from key value 0 (before ++ take k s) (drop k s).
Proof.
  revert before s. induction k as [|k IH]; intros before s Hk.
  - cbn [take drop]. rewrite app_nil_r. reflexivity.
  - destruct s as [|c s]; [cbn in Hk; lia|]. cbn [Js.replace_from take drop].
    rewrite IH by (cbn in Hk; lia). rewrite <- app_assoc. reflexivity.
Qed.

(** With a value that holds no [$], the replacement scans as the
    specification says. *)
Lemma replace_from_substitute (key value : Js.str) :
  Spec.dollar_free value = true ->
  forall fuel before s,
    length s <= fuel ->
    Js.replace_from key value 0 before s = Spec.substitute_upto fuel key value s.
Proof.
  intros Hv. induction fuel as [fuel IH] using lt_wf_ind. intros before s Hlen.
  destruct s as [|c s]; [destruct fuel; reflexivity|].
  cbn [length] in Hlen. destruct fuel as [|fuel]; [lia|].
  cbn [Js.replace_from Spec.substitute_upto].
  destruct (Js.match_placeholder key (c :: s)) as [after|] eqn:E.
  - destruct (match_placeholder_length _ _ _ E) as (m & Hs & Hm).
    rewrite get_substitution_plain by exact Hv. f_equal.
    assert (Hl : length (c :: s) = length m + length after)
      by (rewrite Hs, length_app; reflexivity).
    cbn [length] in Hl.
    replace (length (c :: s) - length after) with (length m) by (cbn [length]; lia).
    assert (Htake : take (length m) (c :: s) = m)
      by (rewrite Hs, take_app_length; reflexivity).
    rewrite Htake. rewrite replace_from_skip by lia.
    assert (Hdrop : drop (length m - 1) s = after).
    { destruct m as [|c' m]; [cbn in Hm; lia|]. injection Hs as -> ->.
      cbn [length]. replace (S (length m) - 1) with (length m) by lia.
      apply drop_app_length. }
    rewrite Hdrop. apply IH; lia.
  - f_equal. apply IH; lia.
Qed.

Lemma replace_placeholder_substitute (key value text : Js.str) :
  Spec.dollar_free value = true ->
  Js.replace_placeholder key value text = Spec.substitute key value text.
Proof.
  intros Hv. unfold Js.replace_placeholder, Spec.substitute.
  apply replace_from_substitute; [exact Hv | lia].
Qed.

(** [format] with values that hold no [$]: each key's placeholders are
    replaced with its value, one key after the other in the order of
    [Object.entries]; what is not a placeholder of a bound key stays. *)
Lemma format_formatted (p : PromptTemplate.t) (variables : Js.obj Js.str) :
  forallb (fun kv => Spec.dollar_free kv.2) (Js.entries variables) = true ->
  PromptTemplate.format p variables
  = Spec.formatted (PromptTemplate.template p) (Js.entries variables).
Proof.
  unfold PromptTemplate.format, Spec.formatted.
  generalize (PromptTemplate.template p). induction (Js.entries variables) as [|kv l IH];
    intros text H; [reflexivity|].
  cbn [forallb] in H. apply andb_prop in H as [Hkv Hl]. cbn [fold_left].
  rewrite replace_placeholder_substitute by exact Hkv. apply IH, Hl.
Qed.

End TemplateFacts.

(** ** The step loop of [invoke] *)

Section EngineFacts.

Context {World Metadata : Type}.
Context (date_now : World -> Z * World).
Context (metadata_json : Metadata -> Js.str).

Implicit Types (wf : @LangChainWorkflow World Metadata).
Implicit Types (st : @LoopState World) (s : @ChainStep World Metadata).
Implicit Types (ss pre post : list (@ChainStep World Metadata)).
Implicit Types (md : Metadata) (w : World) (query : Js.str).


(** *** What one step leaves behind *)

Lemma finish_step_trace st s p toolRes tr w :
  ls_trace (finish_step date_now st s p toolRes tr w) =
  ls_trace st ++ [{| step := step_name s; prompt := p; toolResult := toolRes;
                     response := generateResponse p toolRes |}].
Proof. unfold finish_step. destruct (date_now w). reflexivity. Qed.

Lemma finish_step_previousOutput st s p toolRes tr w :
  ls_previousOutput (finish_step date_now st s p toolRes tr w) = generateResponse p toolRes.
Proof. unfold finish_step. destruct (date_now w). reflexivity. Qed.

Lemma finish_step_toolResults st s p toolRes tr w :
  ls_toolResults (finish_step date_now st s p toolRes tr w) = tr.
Proof. unfold finish_step. destruct (date_now w). reflexivity. Qed.

Lemma finish_step_memory st s p toolRes tr w :
  ls_memory (finish_step date_now st s p toolRes tr w) =
  ConversationMemory.append (ls_memory st) ConversationMemory.assistant
    (generateResponse p toolRes) (date_now w).1.
Proof. unfold finish_step. destruct (date_now w). reflexivity. Qed.

Lemma finish_step_world st s p toolRes tr w :
  ls_world (finish_step date_now st s p toolRes tr w) = (date_now w).2.
Proof. unfold finish_step. destruct (date_now w). reflexivity. Qed.

(** A step that comes back: the tool, when there is one, returned [x] in
    the world [w1], and the step was finished from there. *)
Lemma run_step_inr md st s (st' : LoopState) :
  run_step date_now metadata_json md st s = inr st' ->
  match step_tool s with
  | Some t =>
      exists x w1,
        tool_handler t (step_prompt_text metadata_json md st s) (context_of md st) (ls_world st)
        = (inr x, w1)
        /\ st' = finish_step date_now st s (step_prompt_text metadata_json md st s)
                   (Some (wrap (tool_name t) (tool_description t) x))
                   (Js.assign (ls_toolResults st) (tool_name t)
                      (wrap (tool_name t) (tool_description t) x)) w1
  | None =>
      st' = finish_step date_now st s (step_prompt_text metadata_json md st s) None
              (ls_toolResults st) (ls_world st)
  end.
Proof.
  unfold run_step, tool_invoke. destruct (step_tool s) as [t|].
  - destruct (tool_handler t _ _ _) as [[e|x] w1]; [discriminate|].
    intros [= <-]. eauto.
  - intros [= <-]. reflexivity.
Qed.

(** A step whose tool throws: nothing but the world has moved. *)
Lemma run_step_throw md st s t e w1 :
  step_tool s = Some t ->
  tool_handler t (step_prompt_text metadata_json md st s) (context_of md st) (ls_world st)
  = (inl e, w1) ->
  run_step date_now metadata_json md st s =
  inl (e, {| ls_memory := ls_memory st; ls_toolResults := ls_toolResults st;
             ls_trace := ls_trace st; ls_previousOutput := ls_previousOutput st;
             ls_world := w1 |}).
Proof.
  intros Ht Hh. unfold run_step, tool_invoke. rewrite Ht, Hh. reflexivity.
Qed.

Lemma run_step_inr_entry md st s (st' : LoopState) :
  run_step date_now metadata_json md st s = inr st' ->
  exists e now,
    ls_trace st' = ls_trace st ++ [e]
    /\ step e = step_name s
    /\ prompt e = step_prompt_text metadata_json md st s
    /\ ls_previousOutput st' = response e
    /\ ls_memory st' =
       ConversationMemory.append (ls_memory st) ConversationMemory.assistant (response e) now.
Proof.
  intros H. apply run_step_inr in H. destruct (step_tool s) as [t|].
  - destruct H as (x & w1 & _ & ->).
    rewrite finish_step_trace, finish_step_previousOutput, finish_step_memory.
    eexists _, _. repeat split.
  - subst st'.
    rewrite finish_step_trace, finish_step_previousOutput, finish_step_memory.
    eexists _, _. repeat split.
Qed.

Lemma run_steps_app md pre post st :
  run_steps date_now metadata_json md (pre ++ post) st =
  match run_steps date_now metadata_json md pre st with
  | inr st' => run_steps date_now metadata_json md post st'
  | inl failure => inl failure
  end.
Proof.
  revert st. induction pre as [|s pre IH]; intros st; [reflexivity|].
  cbn [app run_steps]. destruct (run_step date_now metadata_json md st s); [reflexivity | apply IH].
Qed.

(** The steps that came back, in order: one trace entry each, and one
    [append] of its response each. *)
Lemma run_steps_inr md ss st (st' : LoopState) :
  run_steps date_now metadata_json md ss st = inr st' ->
  exists new stamps,
    ls_trace st' = ls_trace st ++ new
    /\ List.map step new = List.map step_name ss
    /\ length stamps = length ss
    /\ ls_previousOutput st' = from_option response (ls_previousOutput st) (last new)
    /\ ls_memory st' = fold_left do_append (assistant_calls new stamps) (ls_memory st).
Proof.
  revert st. induction ss as [|s ss IH]; intros st H.
  - injection H as <-. exists [], []. rewrite app_nil_r. repeat split.
  - cbn [run_steps] in H.
    destruct (run_step date_now metadata_json md st s) as [f|st1] eqn:E; [discriminate|].
    apply run_step_inr_entry in E as (e & now & Etr & Estep & _ & Eprev & Emem).
    apply IH in H as (new & stamps & Htr & Hsteps & Hlen & Hprev & Hmem).
    exists (e :: new), (now :: stamps). repeat split.
    + rewrite Htr, Etr, <- app_assoc. reflexivity.
    + cbn. rewrite Estep, Hsteps. reflexivity.
    + cbn. rewrite Hlen. reflexivity.
    + rewrite Hprev. destruct new as [|e' new']; [exact Eprev|].
      change (last (e :: e' :: new')) with (last (e' :: new')).
      destruct (last (e' :: new')) eqn:El; [reflexivity|].
      apply last_None in El. discriminate.
    + rewrite Hmem, Emem. reflexivity.
Qed.

(** *** [invoke] *)

Lemma seed_fields wf query w :
  ls_trace (seed date_now wf query w) = []
  /\ ls_toolResults (seed date_now wf query w) = []
  /\ ls_previousOutput (seed date_now wf query w) = query
  /\ ls_memory (seed date_now wf query w) =
     ConversationMemory.append (memory wf) ConversationMemory.user query (date_now w).1
  /\ ls_world (seed date_now wf query w) = (date_now w).2.
Proof. unfold seed. destruct (date_now w). repeat split. Qed.

Lemma invoke_steps wf query md w :
  steps wf <> [] ->
  invoke date_now metadata_json wf query md w =
  match run_steps date_now metadata_json md (steps wf) (seed date_now wf query w) with
  | inr st =>
      (inr {| final := ls_previousOutput st; trace := ls_trace st |},
       with_memory wf (ls_memory st), ls_world st)
  | inl (e, st) => (inl e, with_memory wf (ls_memory st), ls_world st)
  end.
Proof. unfold invoke. destruct (steps wf); [congruence | reflexivity]. Qed.

(** With handlers that always return, the loop comes back and [invoke]
    returns a result. *)
Lemma run_steps_returns md ss st :
  Forall step_never_throws ss ->
  exists st', run_steps date_now metadata_json md ss st = inr st'.
Proof.
  intros H. revert st. induction H as [|s ss Hs _ IH]; intros st.
  - exists st. reflexivity.
  - cbn [run_steps]. unfold run_step, tool_invoke. unfold step_never_throws in Hs.
    destruct (step_tool s) as [t|]; [|apply IH].
    destruct (Hs (step_prompt_text metadata_json md st s) (context_of md st) (ls_world st))
      as (x & w1 & ->).
    apply IH.
Qed.

Lemma invoke_returns wf query md w :
  steps wf <> [] ->
  Forall step_never_throws (steps wf) ->
  exists r wf' w', invoke date_now metadata_json wf query md w = (inr r, wf', w').
Proof.
  intros Hne Hall. rewrite invoke_steps by exact Hne.
  destruct (run_steps_returns md (steps wf) (seed date_now wf query w) Hall) as (st & ->).
  eauto.
Qed.

(** C5. A workflow without steps: [invoke] throws the error with the
    message [No steps registered in the LangChain workflow.], for every
    query and metadata, and leaves the engine, its memory included, and
    the world as they were. *)
Theorem invoke_no_steps wf query md w :
  steps wf = [] ->
  invoke date_now metadata_json wf query md w
  = (inl (Js.Error (Js.lit "No steps registered in the LangChain workflow.")), wf, w).
Proof. intros H. unfold invoke. rewrite H. reflexivity. Qed.

(** C2. A successful [invoke] returns a trace with exactly one entry per
    configured step, in the order the steps were defined, and [final] is
    the response of the last entry. (A successful run has at least one
    step.) *)
Theorem invoke_trace_complete wf query md w
    (r : WorkflowResult) (wf' : LangChainWorkflow) (w' : World) :
  invoke date_now metadata_json wf query md w = (inr r, wf', w') ->
  length (trace r) = length (steps wf)
  /\ List.map step (trace r) = List.map step_name (steps wf)
  /\ exists e, last (trace r) = Some e /\ final r = response e.
Proof.
  intros H. unfold invoke in H.
  destruct (steps wf) as [|s0 ss0] eqn:Hss; [discriminate|].
  destruct (run_steps date_now metadata_json md (s0 :: ss0) (seed date_now wf query w))
    as [[e st]|st] eqn:E; [discriminate|].
  injection H as <- _ _. cbn [trace final].
  apply run_steps_inr in E as (new & stamps & Htr & Hsteps & _ & Hprev & _).
  destruct (seed_fields wf query w) as (Hs & _).
  rewrite Hs in Htr. cbn [app] in Htr. rewrite Htr.
  split; [|split].
  - rewrite <- (length_map step new), Hsteps, length_map. reflexivity.
  - exact Hsteps.
  - destruct (last new) as [e|] eqn:El.
    + exists e. split; [reflexivity | exact Hprev].
    + apply last_None in El. rewrite El in Hsteps. discriminate Hsteps.
Qed.

Lemma invoke_breaks wf query md w pre s post t st e w1 :
  breaks_at date_now metadata_json wf query md w pre s post t st e w1 ->
  invoke date_now metadata_json wf query md w = (inl e, with_memory wf (ls_memory st), w1).
Proof.
  intros (Hss & Ht & Hpre & Hh).
  rewrite invoke_steps by (rewrite Hss; destruct pre; discriminate).
  rewrite Hss, run_steps_app, Hpre. cbn [run_steps].
  rewrite (run_step_throw md st s t e w1 Ht Hh). reflexivity.
Qed.

(** C4. When the handler of a step's tool throws, [invoke] throws that
    very value: it is neither caught, wrapped nor retried (the world is
    the one the single failing call left), and no [WorkflowResult], so no
    trace of the steps before, comes back. *)
Theorem invoke_tool_failure_propagates wf query md w pre s post t st e w1 :
  breaks_at date_now metadata_json wf query md w pre s post t st e w1 ->
  (invoke date_now metadata_json wf query md w).1.1 = inl e
  /\ (invoke date_now metadata_json wf query md w).2 = w1
  /\ forall r : WorkflowResult, (invoke date_now metadata_json wf query md w).1.1 <> inr r.
Proof.
  intros H. rewrite (invoke_breaks _ _ _ _ _ _ _ _ _ _ _ H). cbn.
  repeat split. discriminate.
Qed.

(** C10. Atomicity stops at the memory. When the tool of step [k] throws,
    the engine's memory keeps the user query and the responses of steps
    [1..k-1], appended in that order (each append trimming to the window);
    nothing is rolled back, and the first prompt of the next [invoke] on
    the engine is formatted with the summary of that memory, extended by
    the new query. *)
Theorem invoke_failure_keeps_memory wf query md w pre s post t st e w1 :
  breaks_at date_now metadata_json wf query md w pre s post t st e w1 ->
  let wf' := (invoke date_now metadata_json wf query md w).1.2 in
  (invoke date_now metadata_json wf query md w).1.1 = inl e
  /\ List.map step (ls_trace st) = List.map step_name pre
  /\ (exists stamps,
        length stamps = length pre
        /\ memory wf' =
           fold_left do_append
             ((ConversationMemory.user, query, (date_now w).1)
                :: assistant_calls (ls_trace st) stamps)
             (memory wf))
  /\ forall query2 md2 w2 s1,
       head (steps wf') = Some s1 ->
       step_prompt_text metadata_json md2 (seed date_now wf' query2 w2) s1 =
       PromptTemplate.format (step_prompt s1)
         [(Js.lit "input", query2);
          (Js.lit "memory",
           ConversationMemory.summarize
             (ConversationMemory.append (memory wf') ConversationMemory.user query2
                (date_now w2).1));
          (Js.lit "metadata", metadata_json md2);
          (Js.lit "toolResults", Js.json_stringify [])].
Proof.
  intros H. rewrite (invoke_breaks _ _ _ _ _ _ _ _ _ _ _ H). cbn zeta. cbn [fst snd].
  destruct H as (Hss & Ht & Hpre & Hh).
  apply run_steps_inr in Hpre as (new & stamps & Htr & Hsteps & Hlen & _ & Hmem).
  destruct (seed_fields wf query w) as (Hs & _ & _ & Hm & _).
  rewrite Hs in Htr. cbn [app] in Htr. rewrite Htr.
  split; [reflexivity|]. split; [exact Hsteps|]. split.
  - exists stamps. split; [exact Hlen|].
    cbn [memory with_memory fold_left]. rewrite Hmem, Hm. reflexivity.
  - intros query2 md2 w2 s1 _. unfold step_prompt_text, bindings.
    destruct (seed_fields (with_memory wf (ls_memory st)) query2 w2)
      as (_ & -> & -> & -> & _).
    reflexivity.
Qed.

End EngineFacts.

(** ** Building a workflow: [addStep] *)

Section BuildFacts.

Context {World Metadata : Type}.

(** C6, as the code has it. For a tool name that is not the empty string
    and is not in the registry at the time of the call, [addStep] throws an
    error whose message quotes that name, and no step is added (the call
    yields no engine); with a non-empty name that is registered, the step
    is added, bound to the registered tool; with no tool name, or with the
    empty string, which counts as none, the step is added without a tool. *)
Theorem addStep_fail_fast (wf : @LangChainWorkflow World Metadata) (name template : Js.str) :
  (forall t : Js.str,
      t <> [] -> tools wf !! t = None ->
      addStep wf name template (Some t)
      = inl (Js.Error (Js.lit "Tool " ++ [Js.DQUOTE] ++ t ++ [Js.DQUOTE]
                         ++ Js.lit " has not been registered.")))
  /\ (forall (t : Js.str) (tool : LangChainTool),
         t <> [] -> tools wf !! t = Some tool ->
         addStep wf name template (Some t) = inr (with_step wf name template (Some tool)))
  /\ addStep wf name template None = inr (with_step wf name template None)
  /\ addStep wf name template (Some []) = inr (with_step wf name template None).
Proof.
  repeat split.
  - intros t Ht Hreg. unfold addStep. destruct t as [|c t]; [congruence|].
    cbn [Js.truthy]. rewrite Hreg.
    rewrite bool_decide_eq_false_2 by (intros [x Hx]; discriminate). reflexivity.
  - intros t tool Ht Hreg. unfold addStep. destruct t as [|c t]; [congruence|].
    cbn [Js.truthy]. rewrite Hreg.
    rewrite bool_decide_eq_true_2 by eauto. reflexivity.
Qed.

(** A tool registered after the step that names it is not bound to it:
    the lookup is made when [addStep] is called. *)
Lemma registerTool_lookup (wf : @LangChainWorkflow World Metadata) name description handler :
  tools (registerTool wf name description handler) !! name
  = Some {| tool_name := name; tool_description := description; tool_handler := handler |}.
Proof. unfold registerTool. cbn [tools]. apply lookup_insert_eq. Qed.

End BuildFacts.

(** C6 as the specification words it fails at the empty name: it is not
    in the registry of a new engine, and yet [addStep] throws nothing. *)
Lemma addStep_empty_name_accepted :
  tools (@create unit unit None) !! ([] : Js.str) = None
  /\ forall e : Js.thrown,
       addStep (@create unit unit None) (Js.lit "s") (Js.lit "t") (Some []) <> inl e.
Proof. split; [reflexivity | intros e; discriminate]. Qed.

(** ** Tool results across steps *)

Section ToolResultFacts.

Context {World Metadata : Type}.
Context (date_now : World -> Z * World).
Context (metadata_json : Metadata -> Js.str).

Lemma obj_get_set {V} (o : Js.obj V) (k k' : Js.str) (v : V) :
  Js.obj_get (Js.obj_set o k v) k' = if decide (k' = k) then Some v else Js.obj_get o k'.
Proof.
  induction o as [|[k0 v0] o IH]; cbn [Js.obj_set Js.obj_get].
  - destruct (decide (k' = k)); reflexivity.
  - destruct (decide (k = k0)) as [->|Hne]; cbn [Js.obj_get].
    + destruct (decide (k' = k0)); reflexivity.
    + rewrite IH. destruct (decide (k' = k0)) as [->|]; [|reflexivity].
      destruct (decide (k0 = k)); [congruence | reflexivity].
Qed.

(** Away from [__proto__], an assignment is read back, and overwrites. *)
Lemma assign_get (o : Js.obj Js.str) (k k' v : Js.str) :
  k <> Js.lit "__proto__" ->
  Js.obj_get (Js.assign o k v) k' = if decide (k' = k) then Some v else Js.obj_get o k'.
Proof.
  intros Hk. unfold Js.assign. destruct (decide (k = Js.lit "__proto__")); [congruence|].
  apply obj_get_set.
Qed.

Lemma assign_proto (o : Js.obj Js.str) (v : Js.str) :
  Js.assign o (Js.lit "__proto__") v = o.
Proof. reflexivity. Qed.

(** A step with a tool: the handler gets the prompt formatted from the
    tool results of the steps before, and the wrapped result becomes the
    entry's [toolResult] and is assigned under the tool's name. *)
Lemma run_step_tool (md : Metadata) (st st' : @LoopState World)
    (s : @ChainStep World Metadata) (t : LangChainTool) :
  step_tool s = Some t ->
  run_step date_now metadata_json md st s = inr st' ->
  exists x w1,
    tool_handler t
      (PromptTemplate.format (step_prompt s)
         [(Js.lit "input", ls_previousOutput st);
          (Js.lit "memory", ConversationMemory.summarize (ls_memory st));
          (Js.lit "metadata", metadata_json md);
          (Js.lit "toolResults", Js.json_stringify (ls_toolResults st))])
      {| ctx_memory := ls_memory st; ctx_metadata := md;
         ctx_toolResults := ls_toolResults st |}
      (ls_world st)
    = (inr x, w1)
    /\ (toolResult <$> last (ls_trace st'))
       = Some (Some (wrap (tool_name t) (tool_description t) x))
    /\ ls_toolResults st'
       = Js.assign (ls_toolResults st) (tool_name t)
           (wrap (tool_name t) (tool_description t) x).
Proof.
  intros Ht H. apply run_step_inr in H. rewrite Ht in H.
  destruct H as (x & w1 & Hh & ->). exists x, w1. split; [exact Hh|].
  rewrite finish_step_trace, finish_step_toolResults, last_snoc. split; reflexivity.
Qed.

(** A step without a tool leaves the tool results alone. *)
Lemma run_step_no_tool (md : Metadata) (st st' : @LoopState World)
    (s : @ChainStep World Metadata) :
  step_tool s = None ->
  run_step date_now metadata_json md st s = inr st' ->
  ls_toolResults st' = ls_toolResults st.
Proof.
  intros Ht H. apply run_step_inr in H. rewrite Ht in H. subst st'.
  apply finish_step_toolResults.
Qed.

(** Whatever the tool results hold after some steps was there before
    them or is the [toolResult] of one of their trace entries. *)
Lemma run_steps_toolResults (md : Metadata) (ss : list (@ChainStep World Metadata))
    (st st' : @LoopState World) (n v : Js.str) :
  run_steps date_now metadata_json md ss st = inr st' ->
  Js.obj_get (ls_toolResults st') n = Some v ->
  Js.obj_get (ls_toolResults st) n = Some v
  \/ exists e, e ∈ drop (length (ls_trace st)) (ls_trace st') /\ toolResult e = Some v.
Proof.
  revert st. induction ss as [|s ss IH]; intros st H Hget.
  - injection H as <-. left. exact Hget.
  - cbn [run_steps] in H.
    destruct (run_step date_now metadata_json md st s) as [f|st1] eqn:E; [discriminate|].
    pose proof (run_steps_inr date_now metadata_json md ss st1 st' H)
      as (new & _ & Htr & _).
    pose proof (run_step_inr_entry date_now metadata_json md st s st1 E)
      as (e & _ & Etr & _).
    assert (Hdrop : drop (length (ls_trace st)) (ls_trace st') = e :: new).
    { rewrite Htr, Etr, <- app_assoc, drop_app_length. reflexivity. }
    assert (Hdrop1 : drop (length (ls_trace st1)) (ls_trace st') = new).
    { rewrite Htr, drop_app_length. reflexivity. }
    rewrite Hdrop. destruct (IH st1 H Hget) as [Hold|(e' & Hin & He')].
    + destruct (step_tool s) as [t|] eqn:Ht.
      * destruct (run_step_tool md st st1 s t Ht E) as (x & w1 & _ & Hlast & Hres).
        rewrite Hres in Hold. unfold Js.assign in Hold.
        destruct (decide (tool_name t = Js.lit "__proto__")); [left; exact Hold|].
        rewrite obj_get_set in Hold.
        destruct (decide (n = tool_name t)); [|left; exact Hold].
        right. exists e. split; [apply list_elem_of_here|].
        rewrite Etr, last_snoc in Hlast. cbn in Hlast. congruence.
      * rewrite (run_step_no_tool md st st1 s Ht E) in Hold. left. exact Hold.
    + right. exists e'. rewrite Hdrop1 in Hin. split; [|exact He'].
      apply list_elem_of_further, Hin.
Qed.

(** The tool accumulation ordering, for a tool not named [__proto__]:
    before step [k] the tool results hold nothing but [toolResult]s of the
    entries of steps [1..k-1]; the handler of step [k] is called with the
    prompt formatted from them, and afterwards its wrapped result is read
    under the tool's name, the other names being left as they were. *)
Lemma tool_results_accumulate (md : Metadata) (wf : @LangChainWorkflow World Metadata)
    (query : Js.str) (w : World) (pre : list ChainStep) (s : ChainStep)
    (st st' : @LoopState World) (t : LangChainTool) :
  run_steps date_now metadata_json md pre (seed date_now wf query w) = inr st ->
  step_tool s = Some t ->
  tool_name t <> Js.lit "__proto__" ->
  run_step date_now metadata_json md st s = inr st' ->
  (forall n v, Js.obj_get (ls_toolResults st) n = Some v ->
               exists e, e ∈ ls_trace st /\ toolResult e = Some v)
  /\ exists x w1,
       tool_handler t (step_prompt_text metadata_json md st s) (context_of md st) (ls_world st)
       = (inr x, w1)
       /\ Js.obj_get (ls_toolResults st') (tool_name t)
          = Some (wrap (tool_name t) (tool_description t) x)
       /\ forall n, n <> tool_name t ->
                    Js.obj_get (ls_toolResults st') n = Js.obj_get (ls_toolResults st) n.
Proof.
  intros Hpre Ht Hname Hstep. split.
  - intros n v Hget.
    destruct (run_steps_toolResults md pre _ st n v Hpre Hget) as [Hold|(e & Hin & He)].
    + destruct (seed_fields date_now wf query w) as (_ & Hres & _).
      rewrite Hres in Hold. discriminate.
    + destruct (seed_fields date_now wf query w) as (Htr & _).
      rewrite Htr in Hin. exists e. split; [exact Hin | exact He].
  - destruct (run_step_tool md st st' s t Ht Hstep) as (x & w1 & Hh & _ & Hres).
    exists x, w1. split; [exact Hh|]. rewrite Hres. split.
    + rewrite assign_get by exact Hname. rewrite decide_True by reflexivity. reflexivity.
    + intros n Hn. rewrite assign_get by exact Hname.
      rewrite decide_False by exact Hn. reflexivity.
Qed.

End ToolResultFacts.

(** C3 at a tool registered as [__proto__]: the first step records the
    wrapped result as its [toolResult], yet the assignment under the tool's
    name stores nothing, and the second step's [toolResults] binding is
    the empty object. *)
Theorem proto_tool_result_not_stored :
  (invoke Sample.date_now Sample.metadata_json Sample.proto
     Sample.sample_query Sample.sample_metadata 0%Z).1.1
  = inr {| final := Js.lit "{}";
           trace :=
             [{| step := Js.lit "first";
                 prompt := Js.lit "Summarize station status";
                 toolResult := Some (Js.lit "__proto__ (d): echo:Summarize station status");
                 response :=
                   Js.lit "Summarize station status | __proto__ (d): echo:Summarize station status" |};
              {| step := Js.lit "second";
                 prompt := Js.lit "{}";
                 toolResult := None;
                 response := Js.lit "{}" |}] |}.
Proof. vm_compute. reflexivity. Qed.

(** ** PromptTemplate *)

(** The example of the specification. *)
Lemma format_hello_ada :
  PromptTemplate.format {| PromptTemplate.template := Js.lit "Hello {{name}}, {{unbound}}" |}
    [(Js.lit "name", Js.lit "Ada")]
  = Js.lit "Hello Ada, {{unbound}}".
Proof. vm_compute. reflexivity. Qed.

(** White space around the name is allowed, and every occurrence goes. *)
Lemma format_white_space :
  PromptTemplate.format {| PromptTemplate.template := Js.lit "{{ name }}-{{name  }}-{{name}}" |}
    [(Js.lit "name", Js.lit "Ada")]
  = Js.lit "Ada-Ada-Ada".
Proof. vm_compute. reflexivity. Qed.

Lemma format_no_variables (p : PromptTemplate.t) :
  PromptTemplate.format p [] = PromptTemplate.template p.
Proof. reflexivity. Qed.

(** C8 at a value that holds [$$]: the placeholder is not replaced with
    the bound value but with its expansion as a replacement pattern, here
    and in the prompt [invoke] formats from a query. *)
Theorem format_expands_dollar_patterns :
  PromptTemplate.format {| PromptTemplate.template := Js.lit "{{input}}" |}
    [(Js.lit "input", Js.lit "cost: $$5")]
  = Js.lit "cost: $5"
  /\ (invoke Sample.date_now Sample.metadata_json Sample.repeat
        (Js.lit "cost: $$5") Sample.sample_metadata 0%Z).1.1
     = inr {| final := Js.lit "cost: $5";
              trace := [{| step := Js.lit "repeat"; prompt := Js.lit "cost: $5";
                           toolResult := None; response := Js.lit "cost: $5" |}] |}.
Proof. split; vm_compute; reflexivity. Qed.

(** ** The theorems at the sample engines *)

(** Three appends into a memory of two entries: the first one is gone. *)
Lemma append_bounded_memory_witness :
  (0 <= 2)%Z
  /\ ((Z.of_nat (length (ConversationMemory.snapshot (after_appends 2 Sample.three_calls))) <= 2)%Z
      /\ ConversationMemory.snapshot (after_appends 2 Sample.three_calls)
         = Spec.most_recent (Z.to_nat 2) (List.map entry_of Sample.three_calls)).
Proof.
  split; [lia | apply (append_bounded_memory 2 Sample.three_calls); lia].
Defined.

(** [runSample]: two steps, two trace entries. *)
Lemma invoke_trace_complete_witness :
  invoke Sample.date_now Sample.metadata_json Sample.sample Sample.sample_query
    Sample.sample_metadata 0%Z
  = (inr Sample.sample_result, Sample.sample_run.1.2, Sample.sample_run.2)
  /\ (length (trace Sample.sample_result) = length (steps Sample.sample)
      /\ List.map step (trace Sample.sample_result) = List.map step_name (steps Sample.sample)
      /\ exists e, last (trace Sample.sample_result) = Some e
                   /\ final Sample.sample_result = response e).
Proof.
  split; [vm_compute; reflexivity|].
  apply (invoke_trace_complete Sample.date_now Sample.metadata_json
           Sample.sample Sample.sample_query Sample.sample_metadata 0%Z
           Sample.sample_result Sample.sample_run.1.2 Sample.sample_run.2).
  vm_compute; reflexivity.
Defined.

Lemma breaking_breaks :
  breaks_at Sample.date_now Sample.metadata_json Sample.breaking Sample.sample_query
    Sample.sample_metadata 0%Z Sample.breaking_first Sample.breaking_second []
    Sample.bad_tool Sample.breaking_state (Js.Error (Js.lit "boom")) 2%Z.
Proof. unfold breaks_at. repeat split; vm_compute; reflexivity. Defined.

(** The second step of [Sample.breaking] throws [boom]. *)
Lemma invoke_tool_failure_propagates_witness :
  breaks_at Sample.date_now Sample.metadata_json Sample.breaking Sample.sample_query
    Sample.sample_metadata 0%Z Sample.breaking_first Sample.breaking_second []
    Sample.bad_tool Sample.breaking_state (Js.Error (Js.lit "boom")) 2%Z
  /\ ((invoke Sample.date_now Sample.metadata_json Sample.breaking Sample.sample_query
         Sample.sample_metadata 0%Z).1.1 = inl (Js.Error (Js.lit "boom"))
      /\ (invoke Sample.date_now Sample.metadata_json Sample.breaking Sample.sample_query
            Sample.sample_metadata 0%Z).2 = 2%Z
      /\ forall r : WorkflowResult,
           (invoke Sample.date_now Sample.metadata_json Sample.breaking Sample.sample_query
              Sample.sample_metadata 0%Z).1.1 <> inr r).
Proof.
  split; [exact breaking_breaks|].
  exact (invoke_tool_failure_propagates Sample.date_now Sample.metadata_json
           Sample.breaking Sample.sample_query Sample.sample_metadata 0%Z
           Sample.breaking_first Sample.breaking_second [] Sample.bad_tool
           Sample.breaking_state (Js.Error (Js.lit "boom")) 2%Z breaking_breaks).
Defined.

(** An engine without steps. *)
Lemma invoke_no_steps_witness :
  steps (@create Sample.World Sample.Metadata None) = []
  /\ invoke Sample.date_now Sample.metadata_json (create None) (Js.lit "x") [] 0%Z
     = (inl (Js.Error (Js.lit "No steps registered in the LangChain workflow.")),
        create None, 0%Z).
Proof.
  split; [reflexivity|].
  apply (invoke_no_steps Sample.date_now Sample.metadata_json (create None) (Js.lit "x") [] 0%Z).
  reflexivity.
Defined.

(** [addStep("s", "t", "missingTool")] on a workflow that has only
    [echo]. *)
Lemma addStep_fail_fast_witness :
  Js.lit "missingTool" <> []
  /\ tools (registerTool (@create Sample.World Sample.Metadata None)
              (Js.lit "echo") (Js.lit "repeats the input") Sample.echo)
       !! Js.lit "missingTool" = None
  /\ addStep (registerTool (@create Sample.World Sample.Metadata None)
                (Js.lit "echo") (Js.lit "repeats the input") Sample.echo)
       (Js.lit "s") (Js.lit "t") (Some (Js.lit "missingTool"))
     = inl (Js.Error (Js.lit "Tool " ++ [Js.DQUOTE] ++ Js.lit "missingTool" ++ [Js.DQUOTE]
                        ++ Js.lit " has not been registered.")).
Proof.
  assert (Hne : Js.lit "missingTool" <> []) by (vm_compute; discriminate).
  assert (Hreg : tools (registerTool (@create Sample.World Sample.Metadata None)
                          (Js.lit "echo") (Js.lit "repeats the input") Sample.echo)
                   !! Js.lit "missingTool" = None) by (vm_compute; reflexivity).
  split; [exact Hne|]. split; [exact Hreg|].
  exact (proj1 (addStep_fail_fast
                  (registerTool (@create Sample.World Sample.Metadata None)
                     (Js.lit "echo") (Js.lit "repeats the input") Sample.echo)
                  (Js.lit "s") (Js.lit "t")) (Js.lit "missingTool") Hne Hreg).
Defined.

(** A prompt of two lines and a tool result. *)
Lemma generateResponse_spec_witness :
  Some (Js.lit "echo (repeats the input): echo:hi") <> Some []
  /\ generateResponse (Js.lit "Recap" ++ [Js.LF] ++ Js.lit "  Reply   now ")
       (Some (Js.lit "echo (repeats the input): echo:hi"))
     = Spec.synthesized (Js.lit "Recap" ++ [Js.LF] ++ Js.lit "  Reply   now ")
         (Some (Js.lit "echo (repeats the input): echo:hi")).
Proof.
  assert (Hr : Some (Js.lit "echo (repeats the input): echo:hi") <> Some [])
    by (vm_compute; discriminate).
  split; [exact Hr|].
  exact (generateResponse_spec (Js.lit "Recap" ++ [Js.LF] ++ Js.lit "  Reply   now ")
           (Some (Js.lit "echo (repeats the input): echo:hi")) Hr).
Defined.

(** The value both sides of the witness above come to. *)
Lemma generateResponse_sample :
  generateResponse (Js.lit "Recap" ++ [Js.LF] ++ Js.lit "  Reply   now ")
    (Some (Js.lit "echo (repeats the input): echo:hi"))
  = Js.lit "Reply now | echo (repeats the input): echo:hi".
Proof. vm_compute. reflexivity. Qed.

(** An empty observation is passed over, as an absent one is. *)
Lemma generateResponse_empty_observation (p : Js.str) :
  generateResponse p (Some []) = generateResponse p None.
Proof. reflexivity. Qed.

(** [Sample.breaking]: the query and the first response stay in memory. *)
Lemma invoke_failure_keeps_memory_witness :
  breaks_at Sample.date_now Sample.metadata_json Sample.breaking Sample.sample_query
    Sample.sample_metadata 0%Z Sample.breaking_first Sample.breaking_second []
    Sample.bad_tool Sample.breaking_state (Js.Error (Js.lit "boom")) 2%Z
  /\ List.map ConversationMemory.render
       (ConversationMemory.snapshot
          (memory (invoke Sample.date_now Sample.metadata_json Sample.breaking
                     Sample.sample_query Sample.sample_metadata 0%Z).1.2))
     = [Js.lit "[user] Summarize station status";
        Js.lit "[assistant] Summarize station status | echo (repeats the input): echo:Summarize station status"]
  /\ exists stamps,
       length stamps = length Sample.breaking_first
       /\ memory (invoke Sample.date_now Sample.metadata_json Sample.breaking
                    Sample.sample_query Sample.sample_metadata 0%Z).1.2
          = fold_left do_append
              ((ConversationMemory.user, Sample.sample_query, (Sample.date_now 0%Z).1)
                 :: assistant_calls (ls_trace Sample.breaking_state) stamps)
              (memory Sample.breaking).
Proof.
  split; [exact breaking_breaks|]. split; [vm_compute; reflexivity|].
  exact (proj1 (proj2 (proj2
    (invoke_failure_keeps_memory Sample.date_now Sample.metadata_json
       Sample.breaking Sample.sample_query Sample.sample_metadata 0%Z
       Sample.breaking_first Sample.breaking_second [] Sample.bad_tool
       Sample.breaking_state (Js.Error (Js.lit "boom")) 2%Z breaking_breaks)))).
Defined.

(** ** Scenarios *)

(** The four keys [invoke] formats with are plain keys, none of them an
    array index: [Object.entries] yields them in the order written. *)
Lemma bindings_plain {World Metadata : Type} (metadata_json : Metadata -> Js.str)
    (md : Metadata) (st : @LoopState World) :
  forallb Js.plain_key (List.map fst (bindings metadata_json md st)) = true
  /\ Js.entries (bindings metadata_json md st) = bindings metadata_json md st.
Proof. split; reflexivity. Qed.

(** A capacity below zero empties the memory at every [append]. *)
Lemma append_negative_limit (m : ConversationMemory.t) r txt now :
  (ConversationMemory.limit m < 0)%Z ->
  ConversationMemory.history (ConversationMemory.append m r txt now) = [].
Proof.
  intros Hl. unfold ConversationMemory.append.
  set (pushed := ConversationMemory.history m ++ _).
  destruct (_ <? _)%Z eqn:E; [|apply Z.ltb_ge in E; lia].
  cbn [ConversationMemory.history]. unfold Js.slice.
  destruct (_ <? 0)%Z eqn:E0; [apply Z.ltb_lt in E0; lia|].
  rewrite Z.min_r by lia. rewrite Nat2Z.id. apply drop_all.
Qed.

(** The end-to-end scenario: [runSample("Summarize station status")]. *)
Lemma sample_end_to_end :
  Sample.sample_run.1.1
  = inr {| final := Js.lit "Deliver a one sentence reply for the user.";
           trace :=
             [{| step := Js.lit "Echo latest message";
                 prompt :=
                   Js.lit "Memory recap: [user] Summarize station status" ++ [Js.LF]
                     ++ Js.lit "Last user request: Summarize station status" ++ [Js.LF]
                     ++ Js.lit "Respond with tool output only.";
                 toolResult :=
                   Some (Js.lit "echo (repeats the input): echo:Respond with tool output only.");
                 response :=
                   Js.lit "Respond with tool output only. | echo (repeats the input): echo:Respond with tool output only." |};
              {| step := Js.lit "Compose closing";
                 prompt :=
                   Js.lit "Tool results: {" ++ [Js.DQUOTE] ++ Js.lit "echo" ++ [Js.DQUOTE]
                     ++ Js.lit ":" ++ [Js.DQUOTE]
                     ++ Js.lit "echo (repeats the input): echo:Respond with tool output only."
                     ++ [Js.DQUOTE] ++ Js.lit "}" ++ [Js.LF]
                     ++ Js.lit "Deliver a one sentence reply for the user.";
                 toolResult := None;
                 response := Js.lit "Deliver a one sentence reply for the user." |}] |}.
Proof. vm_compute. reflexivity. Qed.

(** The memory trim scenario: with a window of two, three invocations
    leave the last query and its response; the first entries are gone. *)
Lemma narrow_memory_trimmed :
  List.map ConversationMemory.render
    (ConversationMemory.snapshot (memory Sample.narrow_after_three.1))
  = [Js.lit "[user] third"; Js.lit "[assistant] third"].
Proof. vm_compute. reflexivity. Qed.

(** After the failed run of [Sample.breaking], the summary the next
    [invoke] formats its first prompt with still shows that run. *)
Lemma breaking_next_summary :
  ConversationMemory.summarize
    (ls_memory
       (seed Sample.date_now
          (invoke Sample.date_now Sample.metadata_json Sample.breaking
             Sample.sample_query Sample.sample_metadata 0%Z).1.2
          (Js.lit "again") 2%Z))
  = Js.lit "[user] Summarize station status" ++ [Js.LF]
      ++ Js.lit "[assistant] Summarize station status | echo (repeats the input): echo:Summarize station status"
      ++ [Js.LF] ++ Js.lit "[user] again".
Proof. vm_compute. reflexivity. Qed.

(** * Further properties *)

(** ** ConversationMemory on a memory in use *)

Section MemoryMore.

Import ConversationMemory.

Lemma most_recent_snoc_pos {A} (n : nat) (l : list A) (x : A) :
  1 <= n -> Spec.most_recent n (l ++ [x]) = Spec.most_recent (n - 1) l ++ [x].
Proof.
  intros Hn. rewrite !most_recent_drop, length_app. cbn [length].
  rewrite drop_app_le by lia. f_equal. f_equal. lia.
Qed.

(** X1. [append] on a memory whose capacity is at least one: the new
    entry comes last and is never the one evicted; before it stay the most
    recent [limit - 1] of the entries held, in their order; the count
    becomes the smaller of the old count plus one and the capacity. *)
Theorem append_keeps_newest (m : t) (r : Role) (txt : Js.str) (now : Z) :
  (1 <= limit m)%Z ->
  snapshot (append m r txt now)
  = Spec.most_recent (Z.to_nat (limit m) - 1) (snapshot m)
      ++ [{| role := r; text := txt; timestamp := now |}]
  /\ length (snapshot (append m r txt now))
     = Nat.min (length (snapshot m) + 1) (Z.to_nat (limit m)).
Proof.
  intros Hl. unfold snapshot. rewrite append_history by lia.
  rewrite most_recent_snoc_pos by lia. split; [reflexivity|].
  rewrite length_app, most_recent_drop, length_drop. cbn [length]. lia.
Qed.

(** X2. With a capacity of zero or less, every [append] leaves the memory
    empty, limit unchanged, and [summarize] goes on returning the
    sentinel of an empty conversation. *)
Theorem append_without_capacity (m : t) (r : Role) (txt : Js.str) (now : Z) :
  (limit m <= 0)%Z ->
  snapshot (append m r txt now) = []
  /\ limit (append m r txt now) = limit m
  /\ summarize (append m r txt now) = Js.lit "Conversation just started.".
Proof.
  intros Hl.
  assert (H : history (append m r txt now) = []).
  { unfold append. set (pushed := history m ++ _).
    assert (Hp : 1 <= length pushed) by (unfold pushed; rewrite length_app; cbn; lia).
    destruct (_ <? _)%Z eqn:E; [|apply Z.ltb_ge in E; lia].
    cbn [history]. unfold Js.slice.
    destruct (_ <? 0)%Z eqn:E0; [apply Z.ltb_lt in E0; lia|].
    rewrite Z.min_r by lia. rewrite Nat2Z.id. apply drop_all. }
  split; [exact H|]. split; [apply append_limit|].
  unfold summarize. rewrite H. reflexivity.
Qed.

(** Appends on any memory with a capacity that is a count. *)
Lemma appends_history (m : t) (calls : list append_call) :
  (0 <= limit m)%Z ->
  calls <> [] ->
  history (fold_left do_append calls m)
  = Spec.most_recent (Z.to_nat (limit m)) (history m ++ List.map entry_of calls)
  /\ limit (fold_left do_append calls m) = limit m.
Proof.
  intros Hl. induction calls as [|c calls IH] using rev_ind; [congruence|]. intros _.
  rewrite fold_left_app. cbn [fold_left]. unfold do_append at 1 3.
  destruct calls as [|c0 calls0].
  - cbn [fold_left List.map app]. rewrite append_history by exact Hl.
    split; [reflexivity | apply append_limit].
  - destruct IH as [IHh IHl]; [discriminate|].
    rewrite append_limit, append_history by (rewrite IHl; exact Hl).
    rewrite IHl, IHh. split; [|reflexivity].
    rewrite most_recent_snoc, List.map_app, app_assoc. reflexivity.
Qed.

Lemma summarize_first_unit (m : t) :
  match history m with
  | [] => summarize m = Js.lit "Conversation just started."
  | _ :: _ => head (summarize m) = Some 91%N
  end.
Proof.
  unfold summarize. destruct (history m) as [|e es]; [reflexivity|].
  cbn [List.map]. unfold Js.or_else.
  rewrite (join_truthy [Js.LF] (render e)) by apply render_truthy.
  destruct es; reflexivity.
Qed.

(** X3. The sentinel tells an empty memory from any other: [summarize]
    returns [Conversation just started.] exactly when the memory holds no
    entry, whatever the texts of the entries are. *)
Theorem summarize_sentinel_iff_empty (m : t) :
  summarize m = Js.lit "Conversation just started." <-> snapshot m = [].
Proof.
  unfold snapshot. pose proof (summarize_first_unit m) as H.
  destruct (history m) as [|e es].
  - split; [reflexivity | intros _; exact H].
  - split; [|discriminate]. intros E. rewrite E in H. discriminate.
Qed.

End MemoryMore.

(** ** The shape of a synthesized response *)

Section ResponseShape.

Import Shape.

Lemma collapsed_start (s : Js.str) :
  Spec.starts_with_white_space (Spec.collapsed s) = Spec.starts_with_white_space s.
Proof.
  induction s as [|c s IH]; [reflexivity|].
  cbn [Spec.collapsed Spec.starts_with_white_space].
  destruct (Js.is_white_space c) eqn:Hc.
  - destruct (Spec.starts_with_white_space s) eqn:Hs; [exact IH | reflexivity].
  - cbn [Spec.starts_with_white_space]. exact Hc.
Qed.

Lemma collapsed_single_spaced (s : Js.str) : single_spaced (Spec.collapsed s) = true.
Proof.
  induction s as [|c s IH]; [reflexivity|]. cbn [Spec.collapsed].
  destruct (Js.is_white_space c) eqn:Hc.
  - destruct (Spec.starts_with_white_space s) eqn:Hs; [exact IH|].
    cbn [single_spaced]. rewrite collapsed_start, Hs, IH. reflexivity.
  - cbn [single_spaced]. rewrite Hc, IH. reflexivity.
Qed.

Lemma single_spaced_app_r (a b : Js.str) :
  single_spaced (a ++ b) = true -> single_spaced b = true.
Proof.
  induction a as [|c a IH]; [trivial|]. cbn [app single_spaced].
  intros H. apply andb_prop in H as [_ H]. apply IH, H.
Qed.

Lemma starts_app_nil (a b : Js.str) :
  Spec.starts_with_white_space (a ++ b) = false ->
  Spec.starts_with_white_space a = false.
Proof. destruct a; [reflexivity | trivial]. Qed.

Lemma single_spaced_app_l (a b : Js.str) :
  single_spaced (a ++ b) = true -> single_spaced a = true.
Proof.
  induction a as [|c a IH]; [reflexivity|]. cbn [app single_spaced].
  intros H. apply andb_prop in H as [Hc H]. rewrite (IH H), andb_true_r.
  destruct (Js.is_white_space c); [|reflexivity].
  apply andb_prop in Hc as [-> Hn]. apply negb_true_iff in Hn.
  rewrite (starts_app_nil a b Hn). reflexivity.
Qed.

Lemma drop_while_start (s : Js.str) :
  Spec.starts_with_white_space (Js.drop_while Js.is_white_space s) = false.
Proof.
  induction s as [|c s IH]; [reflexivity|]. cbn [Js.drop_while].
  destruct (Js.is_white_space c) eqn:Hc; [exact IH | exact Hc].
Qed.

(** [trim] cuts a prefix and a suffix of white space off. *)
Lemma trim_split (s : Js.str) :
  exists a b, s = a ++ Js.trim s ++ b
              /\ Spec.starts_with_white_space (Js.trim s) = false
              /\ ends_with_white_space (Js.trim s) = false.
Proof.
  unfold Js.trim, ends_with_white_space.
  destruct (drop_while_split Js.is_white_space s) as (a & _ & Ha).
  set (t := Js.drop_while Js.is_white_space s) in *.
  destruct (drop_while_split Js.is_white_space (rev t)) as (b & _ & Hb).
  set (u := Js.drop_while Js.is_white_space (rev t)) in *.
  assert (Ht : t = rev u ++ rev b).
  { rewrite <- rev_app_distr, <- Hb, rev_involutive. reflexivity. }
  exists a, (rev b). split; [rewrite Ha at 1; rewrite Ht; reflexivity|]. split.
  - pose proof (drop_while_start s) as Hs. fold t in Hs. rewrite Ht in Hs.
    apply (starts_app_nil _ _ Hs).
  - rewrite rev_involutive. apply drop_while_start.
Qed.

Lemma trim_single_spaced (s : Js.str) :
  single_spaced s = true -> single_spaced (Js.trim s) = true.
Proof.
  intros H. destruct (trim_split s) as (a & b & Hs & _). rewrite Hs in H.
  apply single_spaced_app_r in H. apply single_spaced_app_l in H. exact H.
Qed.

Lemma tidy_or_else (s : Js.str) :
  single_spaced s = true ->
  Spec.starts_with_white_space s = false ->
  ends_with_white_space s = false ->
  tidy (Js.or_else s (Js.lit "No actionable insight produced.")) = true.
Proof.
  intros H1 H2 H3. destruct s as [|c s]; [reflexivity|].
  unfold Js.or_else, tidy. cbn [Js.truthy]. rewrite H1, H2, H3. reflexivity.
Qed.

(** What is left of any text once collapsed and trimmed, or the fallback
    when nothing is left, is tidy. *)
Lemma collapsed_trim_tidy (x : Js.str) :
  tidy (Js.or_else (Js.trim (Js.collapse_white_space x))
          (Js.lit "No actionable insight produced.")) = true.
Proof.
  rewrite collapse_white_space_collapsed.
  destruct (trim_split (Spec.collapsed x)) as (a & b & _ & Hs & He).
  apply tidy_or_else; [|exact Hs | exact He].
  apply trim_single_spaced, collapsed_single_spaced.
Qed.

(** X4. Every response [generateResponse] returns is tidy: it is not
    empty, holds no white space other than single spaces (so no line
    break), and neither starts nor ends with a space, whatever the prompt
    and the tool observation are. *)
Theorem generateResponse_tidy (p : Js.str) (r : option Js.str) :
  Shape.tidy (generateResponse p r) = true.
Proof. unfold generateResponse. apply collapsed_trim_tidy. Qed.

Lemma single_spaced_no_line_feed (s : Js.str) :
  single_spaced s = true -> Spec.has_line_feed s = false.
Proof.
  induction s as [|c s IH]; [reflexivity|]. cbn [single_spaced].
  intros H. apply andb_prop in H as [Hc H]. rewrite has_line_feed_cons, (IH H), orb_false_r.
  destruct (c =? Js.LF)%N eqn:E; [|reflexivity].
  apply N.eqb_eq in E. subst c. discriminate Hc.
Qed.

Lemma single_spaced_collapsed (s : Js.str) :
  single_spaced s = true -> Spec.collapsed s = s.
Proof.
  induction s as [|c s IH]; [reflexivity|]. cbn [single_spaced Spec.collapsed].
  intros H. apply andb_prop in H as [Hc H]. rewrite (IH H).
  destruct (Js.is_white_space c); [|reflexivity].
  apply andb_prop in Hc as [Hc Hn]. apply negb_true_iff in Hn. rewrite Hn.
  apply N.eqb_eq in Hc. subst c. reflexivity.
Qed.

Lemma drop_while_id (s : Js.str) :
  Spec.starts_with_white_space s = false -> Js.drop_while Js.is_white_space s = s.
Proof. destruct s as [|c s]; [reflexivity|]. cbn. intros ->. reflexivity. Qed.

Lemma trim_id (s : Js.str) :
  Spec.starts_with_white_space s = false ->
  ends_with_white_space s = false ->
  Js.trim s = s.
Proof.
  intros Hs He. unfold Js.trim. rewrite (drop_while_id s Hs).
  unfold ends_with_white_space in He. rewrite (drop_while_id _ He).
  apply rev_involutive.
Qed.

(** A tidy text is its own response. *)
Lemma generateResponse_of_tidy (s : Js.str) :
  tidy s = true -> generateResponse s None = s.
Proof.
  unfold tidy. intros H.
  apply andb_prop in H as [H He]. apply andb_prop in H as [H Hs].
  apply andb_prop in H as [Ht H1].
  apply negb_true_iff in He, Hs.
  unfold generateResponse. rewrite last_line.
  rewrite last_segment_no_line_feed by (apply single_spaced_no_line_feed, H1).
  cbn [Js.join]. rewrite collapse_white_space_collapsed, (single_spaced_collapsed s H1).
  rewrite (trim_id s Hs He). unfold Js.or_else. rewrite Ht. reflexivity.
Qed.

(** X5. Synthesizing a response from a response changes nothing: a prompt
    that is itself an output of [generateResponse], with no tool
    observation, is returned as it is. *)
Theorem generateResponse_idempotent (p : Js.str) (r : option Js.str) :
  generateResponse (generateResponse p r) None = generateResponse p r.
Proof.
  apply generateResponse_of_tidy. unfold generateResponse. apply collapsed_trim_tidy.
Qed.

End ResponseShape.

(** ** [format] on templates in general *)

Section TemplateMore.

Import Shape.

Lemma no_double_brace_tail (c : Js.char) (s : Js.str) :
  has_double_brace (c :: s) = false -> has_double_brace s = false.
Proof.
  destruct s as [|d s]; [reflexivity|].
  change (has_double_brace (c :: d :: s))
    with (((c =? 123)%N && (d =? 123)%N) || has_double_brace (d :: s)).
  intros H. apply orb_false_elim in H as [_ H]. exact H.
Qed.

Lemma no_double_brace_no_match (key s : Js.str) :
  has_double_brace s = false -> Js.match_placeholder key s = None.
Proof.
  intros H. unfold Js.match_placeholder.
  destruct (Js.strip_prefix (Js.lit "{{") s) as [rest|] eqn:E; [|reflexivity].
  apply strip_prefix_Some in E. subst s. discriminate H.
Qed.

Lemma replace_from_no_double_brace (key value before s : Js.str) :
  has_double_brace s = false -> Js.replace_from key value 0 before s = s.
Proof.
  revert before. induction s as [|c s IH]; intros before H; [reflexivity|].
  cbn [Js.replace_from]. rewrite (no_double_brace_no_match key _ H).
  rewrite IH by (apply (no_double_brace_tail c), H). reflexivity.
Qed.

(** X6. A template in which [{{] does not occur is returned as it is,
    whatever the variables hold (keys of word characters; the pattern of
    any other key is outside the model). *)
Theorem format_without_placeholder (p : PromptTemplate.t) (variables : Js.obj Js.str) :
  forallb Js.plain_key (List.map fst (Js.entries variables)) = true ->
  has_double_brace (PromptTemplate.template p) = false ->
  PromptTemplate.format p variables = PromptTemplate.template p.
Proof.
  intros _ H. unfold PromptTemplate.format.
  induction (Js.entries variables) as [|kv l IH]; [reflexivity|].
  cbn [fold_left]. unfold Js.replace_placeholder at 2.
  rewrite replace_from_no_double_brace by exact H. exact IH.
Qed.

(** X7. With values in which [$] does not occur, [format] replaces, for
    each key in the order of [Object.entries], every placeholder of that
    key in the text reached so far with the key's value, from the left and
    without looking again at what it has just put in; the rest of the text
    stays (keys of word characters). *)
Theorem format_replaces_in_turn (p : PromptTemplate.t) (variables : Js.obj Js.str) :
  forallb Js.plain_key (List.map fst (Js.entries variables)) = true ->
  forallb (fun kv => Spec.dollar_free kv.2) (Js.entries variables) = true ->
  PromptTemplate.format p variables
  = Spec.formatted (PromptTemplate.template p) (Js.entries variables).
Proof.
  intros _. unfold PromptTemplate.format, Spec.formatted.
  generalize (PromptTemplate.template p).
  induction (Js.entries variables) as [|kv l IH]; intros text H; [reflexivity|].
  cbn [forallb] in H. apply andb_prop in H as [Hkv Hl]. cbn [fold_left].
  rewrite replace_placeholder_substitute by exact Hkv. apply IH, Hl.
Qed.

(** X8. For a key of word characters, the pattern matches at the start of
    a text exactly when the text starts with a placeholder of that key:
    [{{], any white space (line breaks too), the key, any white space,
    [}}]; and what it leaves is what follows the placeholder. *)
Theorem match_placeholder_iff (key s after : Js.str) :
  Js.plain_key key = true ->
  Js.match_placeholder key s = Some after
  <-> exists m, Spec.is_placeholder key m /\ s = m ++ after.
Proof.
  intros Hk. split.
  - apply match_placeholder_sound.
  - intros (m & Hm & ->). apply match_placeholder_complete; assumption.
Qed.

(** *** What [format] cannot reach *)

Lemma free_of_lookup (c : Js.char) (s : Js.str) (i : nat) :
  free_of c s = true -> s !! i = Some c -> False.
Proof.
  revert i. induction s as [|x s IH]; intros i H Hi; [discriminate|].
  cbn [free_of forallb] in H. apply andb_prop in H as [Hx H].
  destruct i as [|i].
  - injection Hi as ->. rewrite N.eqb_refl in Hx. discriminate.
  - apply (IH i H Hi).
Qed.

Lemma placeholder_last (key m : Js.str) :
  Spec.is_placeholder key m ->
  4 <= length m /\ m !! (length m - 1) = Some CLOSE_BRACE.
Proof.
  intros (ws1 & ws2 & _ & _ & ->). split; [rewrite !length_app; cbn; lia|].
  assert (E : Js.lit "{{" ++ ws1 ++ key ++ ws2 ++ Js.lit "}}"
              = (Js.lit "{{" ++ ws1 ++ key ++ ws2) ++ [CLOSE_BRACE; CLOSE_BRACE]).
  { rewrite <- !app_assoc. reflexivity. }
  rewrite E. set (front := Js.lit "{{" ++ ws1 ++ key ++ ws2).
  rewrite length_app. cbn [length].
  etransitivity; [apply lookup_app_r; lia|].
  replace (length front + 2 - 1 - length front) with 1 by lia. reflexivity.
Qed.

(** A match in a text whose tail holds no [}] lies before the tail. *)
Lemma match_before_tail (key X T after : Js.str) :
  free_of CLOSE_BRACE T = true ->
  Js.match_placeholder key (X ++ T) = Some after ->
  exists m X', X = m ++ X' /\ after = X' ++ T /\ 1 <= length m.
Proof.
  intros HT H. apply match_placeholder_sound in H as (m & Hm & E).
  destruct (placeholder_last key m Hm) as [Hlen Hlast].
  assert (Hle : length m <= length X).
  { destruct (decide (length m <= length X)) as [|Hgt]; [assumption|]. exfalso.
    assert (Hi : (X ++ T) !! (length m - 1) = Some CLOSE_BRACE).
    { rewrite E, lookup_app_l by lia. exact Hlast. }
    rewrite lookup_app_r in Hi by lia. apply (free_of_lookup _ _ _ HT Hi). }
  exists m, (drop (length m) X).
  assert (Hm' : take (length m) X = m).
  { rewrite <- (take_app_le X T) by exact Hle. rewrite E. apply take_app_length. }
  split; [rewrite <- Hm' at 1; symmetry; apply take_drop|]. split; [|lia].
  rewrite <- (drop_app_le X T) by exact Hle. rewrite E. symmetry. apply drop_app_length.
Qed.

Lemma free_of_no_match (key T : Js.str) :
  free_of CLOSE_BRACE T = true -> Js.match_placeholder key T = None.
Proof.
  intros HT. destruct (Js.match_placeholder key T) as [after|] eqn:E; [|reflexivity].
  exfalso. destruct (match_before_tail key [] T after HT E) as (m & X' & Hm & _ & Hl).
  destruct m; [cbn in Hl; lia | discriminate].
Qed.

Lemma free_of_tail (c x : Js.char) (s : Js.str) :
  free_of c (x :: s) = true -> free_of c s = true.
Proof. cbn. intros H. apply andb_prop in H as [_ H]. exact H. Qed.

Lemma replace_from_free (key value before T : Js.str) :
  free_of CLOSE_BRACE T = true -> Js.replace_from key value 0 before T = T.
Proof.
  revert before. induction T as [|c T IH]; intros before H; [reflexivity|].
  cbn [Js.replace_from]. rewrite (free_of_no_match key _ H).
  rewrite IH by (apply (free_of_tail _ c), H). reflexivity.
Qed.

(** A replacement leaves a tail without [}] where it is. *)
Lemma replace_from_tail (key value T : Js.str) :
  free_of CLOSE_BRACE T = true ->
  forall X skip before,
    skip <= length X ->
    exists Y, Js.replace_from key value skip before (X ++ T) = Y ++ T.
Proof.
  intros HT. induction X as [|c X IH]; intros skip before Hskip.
  - cbn in Hskip. replace skip with 0 by lia. exists []. cbn [app].
    apply replace_from_free, HT.
  - cbn [app Js.replace_from]. cbn [length] in Hskip. destruct skip as [|k].
    + destruct (Js.match_placeholder key (c :: X ++ T)) as [after|] eqn:E.
      * destruct (match_before_tail key (c :: X) T after HT E) as (m & X' & Hm & Ha & Hl).
        set (matched := take _ _).
        assert (Hlen : length matched - 1 <= length X).
        { unfold matched. rewrite length_take. apply (f_equal length) in Hm.
          rewrite Ha. cbn [length] in *. rewrite !length_app in *. lia. }
        destruct (IH (length matched - 1) (before ++ [c]) Hlen) as (Y & ->).
        eexists. rewrite app_assoc. reflexivity.
      * destruct (IH 0 (before ++ [c])) as (Y & ->); [lia|].
        exists (c :: Y). reflexivity.
    + destruct (IH k (before ++ [c])) as (Y & ->); [lia|]. exists Y. reflexivity.
Qed.

Lemma format_tail (X T : Js.str) (variables : Js.obj Js.str) :
  free_of CLOSE_BRACE T = true ->
  exists Y, PromptTemplate.format {| PromptTemplate.template := X ++ T |} variables = Y ++ T.
Proof.
  intros HT. unfold PromptTemplate.format. cbn [PromptTemplate.template].
  revert X. induction (Js.entries variables) as [|kv l IH]; intros X; [eauto|].
  cbn [fold_left]. unfold Js.replace_placeholder at 2.
  destruct (replace_from_tail kv.1 kv.2 T HT X 0 []) as (Y & ->); [lia|]. apply IH.
Qed.

Lemma has_line_feed_app (a b : Js.str) :
  Spec.has_line_feed (a ++ b) = Spec.has_line_feed a || Spec.has_line_feed b.
Proof. unfold Spec.has_line_feed. apply existsb_app. Qed.

Lemma last_segment_app (Y L : Js.str) :
  Spec.has_line_feed L = false -> Spec.last_segment (Y ++ Js.LF :: L) = L.
Proof.
  intros HL. induction Y as [|c Y IH]; cbn [app Spec.last_segment].
  - rewrite HL, N.eqb_refl. reflexivity.
  - rewrite has_line_feed_app, has_line_feed_cons, N.eqb_refl, orb_true_r. exact IH.
Qed.

Lemma last_segment_split (p : Js.str) :
  Spec.has_line_feed p = true -> exists X, p = X ++ Js.LF :: Spec.last_segment p.
Proof.
  induction p as [|c p IH]; [discriminate|]. rewrite has_line_feed_cons.
  cbn [Spec.last_segment]. destruct (Spec.has_line_feed p) eqn:Hp.
  - intros _. destruct (IH eq_refl) as (X & HX). exists (c :: X). cbn. congruence.
  - rewrite orb_false_r. intros Hc. rewrite Hc. apply N.eqb_eq in Hc. subst c.
    exists []. reflexivity.
Qed.

Lemma last_segment_line (p : Js.str) : Spec.has_line_feed (Spec.last_segment p) = false.
Proof.
  induction p as [|c p IH]; [reflexivity|]. cbn [Spec.last_segment].
  destruct (Spec.has_line_feed p) eqn:Hp; [exact IH|].
  destruct (c =? Js.LF)%N eqn:Hc; [exact Hp|].
  rewrite has_line_feed_cons, Hc, Hp. reflexivity.
Qed.

Lemma free_of_line_feed (T : Js.str) :
  free_of CLOSE_BRACE T = true -> free_of CLOSE_BRACE (Js.LF :: T) = true.
Proof. intros H. cbn. exact H. Qed.

(** The last line of a formatted template, when that line of the
    template holds no [}]. *)
Lemma format_last_segment (template : Js.str) (variables : Js.obj Js.str) :
  free_of CLOSE_BRACE (Spec.last_segment template) = true ->
  Spec.last_segment (PromptTemplate.format {| PromptTemplate.template := template |} variables)
  = Spec.last_segment template.
Proof.
  intros H. destruct (Spec.has_line_feed template) eqn:Hlf.
  - destruct (last_segment_split template Hlf) as (X & HX).
    destruct (format_tail X (Js.LF :: Spec.last_segment template) variables
                (free_of_line_feed _ H)) as (Y & HY).
    rewrite <- HX in HY. rewrite HY. apply last_segment_app, last_segment_line.
  - rewrite (last_segment_no_line_feed template Hlf) in H.
    assert (E : PromptTemplate.format {| PromptTemplate.template := template |} variables
                = template).
    { unfold PromptTemplate.format. cbn [PromptTemplate.template].
      induction (Js.entries variables) as [|kv l IH]; [reflexivity|].
      cbn [fold_left]. unfold Js.replace_placeholder at 2.
      rewrite replace_from_free by exact H. exact IH. }
    rewrite E. reflexivity.
Qed.

(** X9. A last line without [}] is out of reach: when the last line of
    the template holds no [}], the formatted text ends with that very
    line, whatever the variables bring in, line breaks included (keys of
    word characters). *)
Theorem format_keeps_last_line (p : PromptTemplate.t) (variables : Js.obj Js.str) :
  forallb Js.plain_key (List.map fst (Js.entries variables)) = true ->
  free_of CLOSE_BRACE (Spec.last_segment (PromptTemplate.template p)) = true ->
  Spec.last_segment (PromptTemplate.format p variables)
  = Spec.last_segment (PromptTemplate.template p).
Proof.
  intros _ H. destruct p as [template]. apply format_last_segment, H.
Qed.

End TemplateMore.

(** ** Building and running, in general *)

Section EngineMore.

Context {World Metadata : Type}.
Context (date_now : World -> Z * World).
Context (metadata_json : Metadata -> Js.str).

Implicit Types (wf : @LangChainWorkflow World Metadata).
Implicit Types (st : @LoopState World) (s : @ChainStep World Metadata).
Implicit Types (ss pre post : list (@ChainStep World Metadata)).
Implicit Types (md : Metadata) (w : World) (query : Js.str).

(** X10. Registration and lookup: once [registerTool(n, d, h)] has been
    called with a non-empty name, [addStep] with that name adds a step
    bound to the tool of name [n], description [d] and handler [h],
    whatever was registered under [n] before (the last registration wins);
    any other name resolves as it did before the call. *)
Theorem registerTool_then_addStep wf (n d : Js.str) (h : ToolHandler)
    (name template : Js.str) :
  n <> [] ->
  addStep (registerTool wf n d h) name template (Some n)
  = inr (with_step (registerTool wf n d h) name template
           (Some {| tool_name := n; tool_description := d; tool_handler := h |}))
  /\ forall n', n' <> n -> tools (registerTool wf n d h) !! n' = tools wf !! n'.
Proof.
  intros Hn. split.
  - unfold addStep. destruct n as [|c n]; [congruence|]. cbn [Js.truthy].
    rewrite registerTool_lookup.
    rewrite bool_decide_eq_true_2 by eauto. reflexivity.
  - intros n' Hne. unfold registerTool. cbn [tools].
    apply lookup_insert_ne. congruence.
Qed.

Lemma seed_registerTool wf (n d : Js.str) (h : ToolHandler) query w :
  seed date_now (registerTool wf n d h) query w = seed date_now wf query w.
Proof. reflexivity. Qed.

(** X11. A registration made after the steps were added changes no run:
    [invoke] on the engine with the tool registered gives the outcome, the
    memory and the world it gives without it, even when a step is bound to
    a tool of the same name; a step keeps the tool it was bound to. *)
Theorem registerTool_after_steps wf (n d : Js.str) (h : ToolHandler) query md w :
  invoke date_now metadata_json (registerTool wf n d h) query md w
  = ((invoke date_now metadata_json wf query md w).1.1,
     registerTool (invoke date_now metadata_json wf query md w).1.2 n d h,
     (invoke date_now metadata_json wf query md w).2).
Proof.
  unfold invoke. rewrite seed_registerTool.
  change (steps (registerTool wf n d h)) with (steps wf).
  destruct (steps wf) as [|s0 ss0]; [reflexivity|].
  destruct (run_steps date_now metadata_json md (s0 :: ss0) (seed date_now wf query w))
    as [[e st]|st]; reflexivity.
Qed.

(** *** What a run leaves of the engine *)

Lemma run_step_limit md st s :
  match run_step date_now metadata_json md st s with
  | inr st' => ConversationMemory.limit (ls_memory st') = ConversationMemory.limit (ls_memory st)
  | inl (_, st') => ls_memory st' = ls_memory st
  end.
Proof.
  unfold run_step. destruct (step_tool s) as [t|].
  - destruct (tool_invoke t _ _ _) as [[e|res] w1]; [reflexivity|].
    rewrite finish_step_memory. apply append_limit.
  - rewrite finish_step_memory. apply append_limit.
Qed.

Lemma run_steps_limit md ss st :
  match run_steps date_now metadata_json md ss st with
  | inr st' | inl (_, st') =>
      ConversationMemory.limit (ls_memory st') = ConversationMemory.limit (ls_memory st)
  end.
Proof.
  revert st. induction ss as [|s ss IH]; intros st; [reflexivity|]. cbn [run_steps].
  pose proof (run_step_limit md st s) as Hs.
  destruct (run_step date_now metadata_json md st s) as [[e st1]|st1].
  - rewrite Hs. reflexivity.
  - specialize (IH st1).
    destruct (run_steps date_now metadata_json md ss st1) as [[e st2]|st2];
      rewrite IH; exact Hs.
Qed.

(** X12. [invoke] never touches the configuration: whether it returns or
    throws, the engine has the tools and the steps it had, in the same
    order, and its memory has the capacity it had. *)
Theorem invoke_keeps_configuration wf query md w :
  tools (engine_after (invoke date_now metadata_json wf query md w)) = tools wf
  /\ steps (engine_after (invoke date_now metadata_json wf query md w)) = steps wf
  /\ ConversationMemory.limit
       (memory (engine_after (invoke date_now metadata_json wf query md w)))
     = ConversationMemory.limit (memory wf).
Proof.
  unfold engine_after, invoke. destruct (steps wf) as [|s0 ss0] eqn:Hss.
  - cbn [fst snd]. repeat split. exact Hss.
  - pose proof (run_steps_limit md (s0 :: ss0) (seed date_now wf query w)) as Hl.
    destruct (seed_fields date_now wf query w) as (_ & _ & _ & Hm & _).
    rewrite Hm, append_limit in Hl.
    destruct (run_steps date_now metadata_json md (s0 :: ss0) (seed date_now wf query w))
      as [[e st]|st]; cbn [fst snd tools steps memory with_memory];
      (split; [reflexivity|]); (split; [exact Hss | exact Hl]).
Qed.

(** X13. What a successful [invoke] leaves in memory: the most recent
    [limit] entries of what the memory held, followed by the query as a
    [user] entry and then one [assistant] entry per step, carrying the
    responses of the trace in order (capacity a count). *)
Theorem invoke_memory_growth wf query md w (r : WorkflowResult)
    (wf' : LangChainWorkflow) (w' : World) :
  (0 <= ConversationMemory.limit (memory wf))%Z ->
  invoke date_now metadata_json wf query md w = (inr r, wf', w') ->
  exists stamps,
    length stamps = length (trace r)
    /\ ConversationMemory.snapshot (memory wf')
       = Spec.most_recent (Z.to_nat (ConversationMemory.limit (memory wf)))
           (ConversationMemory.snapshot (memory wf)
              ++ List.map entry_of (run_calls query (date_now w).1 (trace r) stamps)).
Proof.
  intros Hl H. unfold invoke in H.
  destruct (steps wf) as [|s0 ss0] eqn:Hss; [discriminate|].
  destruct (run_steps date_now metadata_json md (s0 :: ss0) (seed date_now wf query w))
    as [[e st]|st] eqn:E; [discriminate|].
  injection H as <- <- _. cbn [trace memory with_memory].
  apply run_steps_inr in E as (new & stamps & Htr & Hsteps & Hlen & _ & Hmem).
  destruct (seed_fields date_now wf query w) as (Hs & _ & _ & Hm & _).
  rewrite Hs in Htr. cbn [app] in Htr. rewrite Htr.
  exists stamps. split.
  - rewrite Hlen, <- (length_map step_name (s0 :: ss0)), <- Hsteps, length_map. reflexivity.
  - unfold ConversationMemory.snapshot. rewrite Hmem, Hm.
    change (fold_left do_append (assistant_calls new stamps)
              (ConversationMemory.append (memory wf) ConversationMemory.user query
                 (date_now w).1))
      with (fold_left do_append (run_calls query (date_now w).1 new stamps) (memory wf)).
    apply appends_history; [exact Hl | discriminate].
Qed.

(** *** What the trace records *)




(** X15. With handlers that cannot throw, [invoke] cannot either: on an
    engine with at least one step, each bound to no tool or to a tool whose
    handler returns on every input, [invoke] returns a result for every
    query, memory and world, and every metadata that [JSON.stringify]
    accepts. *)
Theorem invoke_cannot_throw wf query md w :
  steps wf <> [] ->
  Forall step_never_throws (steps wf) ->
  exists r, (invoke date_now metadata_json wf query md w).1.1 = inr r
            /\ length (trace r) = length (steps wf).
Proof.
  intros Hne Hall. rewrite invoke_steps by exact Hne.
  destruct (run_steps_returns date_now metadata_json md (steps wf)
              (seed date_now wf query w) Hall) as (st & E).
  rewrite E. eexists. split; [reflexivity|]. cbn [trace].
  apply run_steps_inr in E as (new & stamps & Htr & Hsteps & _).
  destruct (seed_fields date_now wf query w) as (Hs & _).
  rewrite Hs in Htr. cbn [app] in Htr. rewrite Htr.
  rewrite <- (length_map step new), Hsteps, length_map. reflexivity.
Qed.

(** *** A last step that only repeats its template *)

Lemma generateResponse_last_line (p : Js.str) :
  generateResponse p None = generateResponse (Spec.last_segment p) None.
Proof.
  unfold generateResponse. rewrite !last_line.
  rewrite (last_segment_no_line_feed (Spec.last_segment p)) by apply last_segment_line.
  reflexivity.
Qed.

Lemma run_steps_last_fixed md pre s st (st' : LoopState) :
  step_tool s = None ->
  Shape.free_of Shape.CLOSE_BRACE
    (Spec.last_segment (PromptTemplate.template (step_prompt s))) = true ->
  run_steps date_now metadata_json md (pre ++ [s]) st = inr st' ->
  ls_previousOutput st'
  = generateResponse (Spec.last_segment (PromptTemplate.template (step_prompt s))) None.
Proof.
  intros Ht Hfree H. rewrite run_steps_app in H.
  destruct (run_steps date_now metadata_json md pre st) as [[e st0]|st0]; [discriminate|].
  cbn [run_steps] in H.
  destruct (run_step date_now metadata_json md st0 s) as [[e st1]|st1] eqn:E; [discriminate|].
  injection H as <-. apply run_step_inr in E. rewrite Ht in E. subst st1.
  rewrite finish_step_previousOutput, generateResponse_last_line.
  unfold step_prompt_text. destruct (step_prompt s) as [template].
  cbn [PromptTemplate.template] in *.
  rewrite format_last_segment by exact Hfree. reflexivity.
Qed.

(** X16. A run ends on its last template when that step has no tool:
    if the last line of the last step's template holds no [}], the [final]
    of every successful [invoke] is that line, collapsed and trimmed,
    whatever the query, the metadata, the memory and the steps before. *)
Theorem invoke_final_fixed wf query md w pre s (r : WorkflowResult)
    (wf' : LangChainWorkflow) (w' : World) :
  steps wf = pre ++ [s] ->
  step_tool s = None ->
  Shape.free_of Shape.CLOSE_BRACE
    (Spec.last_segment (PromptTemplate.template (step_prompt s))) = true ->
  invoke date_now metadata_json wf query md w = (inr r, wf', w') ->
  final r
  = generateResponse (Spec.last_segment (PromptTemplate.template (step_prompt s))) None.
Proof.
  intros Hss Ht Hfree H.
  rewrite invoke_steps in H by (rewrite Hss; destruct pre; discriminate).
  rewrite Hss in H.
  destruct (run_steps date_now metadata_json md (pre ++ [s]) (seed date_now wf query w))
    as [[e st]|st] eqn:E; [discriminate|].
  injection H as <- _ _. cbn [final].
  apply (run_steps_last_fixed md pre s _ st Ht Hfree E).
Qed.

(** *** Last write wins *)

Lemma run_step_results md st s (st' : LoopState) :
  run_step date_now metadata_json md st s = inr st' ->
  bound_name s <> Some (Js.lit "__proto__") ->
  exists e,
    ls_trace st' = ls_trace st ++ [e]
    /\ forall n, Js.obj_get (ls_toolResults st') n
                 = if decide (bound_name s = Some n) then toolResult e
                   else Js.obj_get (ls_toolResults st) n.
Proof.
  intros H Hp. apply run_step_inr in H. unfold bound_name in *.
  destruct (step_tool s) as [t|]; cbn [fmap option_fmap option_map] in *.
  - destruct H as (x & w1 & _ & ->).
    rewrite finish_step_trace, finish_step_toolResults.
    eexists. split; [reflexivity|]. intros n. cbn [toolResult].
    rewrite assign_get by (intros E; apply Hp; rewrite E; reflexivity).
    destruct (decide (n = tool_name t)) as [->|Hne].
    + rewrite decide_True by reflexivity. reflexivity.
    + rewrite decide_False by congruence. reflexivity.
  - subst st'. rewrite finish_step_trace, finish_step_toolResults.
    eexists. split; [reflexivity|]. intros n.
    rewrite decide_False by discriminate. reflexivity.
Qed.

Lemma run_steps_results md ss st (st' : LoopState) :
  run_steps date_now metadata_json md ss st = inr st' ->
  Forall (fun s => bound_name s <> Some (Js.lit "__proto__")) ss ->
  exists new,
    ls_trace st' = ls_trace st ++ new
    /\ length new = length ss
    /\ forall n, Js.obj_get (ls_toolResults st') n
                 = last_result_for n (zip ss new) (Js.obj_get (ls_toolResults st) n).
Proof.
  revert st. induction ss as [|s ss IH]; intros st H Hall.
  - injection H as <-. exists []. rewrite app_nil_r. repeat split.
  - cbn [run_steps] in H.
    destruct (run_step date_now metadata_json md st s) as [f|st1] eqn:E; [discriminate|].
    apply Forall_cons in Hall as [Hs Hall].
    apply run_step_results in E as (e & Etr & Eres); [|exact Hs].
    destruct (IH st1 H Hall) as (new & Htr & Hlen & Hres).
    exists (e :: new). split; [rewrite Htr, Etr, <- app_assoc; reflexivity|].
    split; [cbn; rewrite Hlen; reflexivity|].
    intros n. rewrite Hres, Eres. reflexivity.
Qed.

(** X17. Last write wins, and nothing else is written: when the steps
    [pre] of a run have come back, none of them bound to a tool named
    [__proto__], the tool results the next step is formatted with hold,
    under each name, the [toolResult] of the last of those steps bound to a
    tool of that name, and nothing under any other name. *)
Theorem tool_results_last_write wf query md w pre (st : LoopState) :
  run_steps date_now metadata_json md pre (seed date_now wf query w) = inr st ->
  Forall (fun s => bound_name s <> Some (Js.lit "__proto__")) pre ->
  length (ls_trace st) = length pre
  /\ forall n, Js.obj_get (ls_toolResults st) n
               = last_result_for n (zip pre (ls_trace st)) None.
Proof.
  intros H Hall.
  destruct (run_steps_results md pre _ st H Hall) as (new & Htr & Hlen & Hres).
  destruct (seed_fields date_now wf query w) as (Hs & Hr & _).
  rewrite Hs in Htr. cbn [app] in Htr. rewrite Htr. split; [exact Hlen|].
  intros n. rewrite Hres, Hr. reflexivity.
Qed.

End EngineMore.

(** ** The weather tool of the demo *)

Section WeatherFacts.

Import Demo.

Lemma strip_prefix_ignore_case_Some (p s rest : Js.str) :
  strip_prefix_ignore_case p s = Some rest
  <-> exists label, s = label ++ rest
                    /\ List.map to_upper_ascii label = List.map to_upper_ascii p.
Proof.
  revert s. induction p as [|c p IH]; intros s; cbn [strip_prefix_ignore_case].
  - split.
    + intros [= ->]. exists []. split; reflexivity.
    + intros (label & -> & Hl). destruct label; [reflexivity | discriminate].
  - destruct s as [|d s].
    + split; [discriminate|]. intros (label & Hs & Hl).
      destruct label; [discriminate Hl | discriminate Hs].
    + unfold eq_ignore_case. destruct (to_upper_ascii c =? to_upper_ascii d)%N eqn:E.
      * apply N.eqb_eq in E. rewrite IH. split.
        -- intros (label & -> & Hl). exists (d :: label). cbn. rewrite E, Hl.
           split; reflexivity.
        -- intros (label & Hs & Hl). destruct label as [|x label]; [discriminate Hl|].
           injection Hs as -> ->. injection Hl as _ Hl. exists label. split; [reflexivity|exact Hl].
      * apply N.eqb_neq in E. split; [discriminate|]. intros (label & Hs & Hl).
        destruct label as [|x label]; [discriminate Hl|].
        injection Hs as -> _. injection Hl as Hx _. congruence.
Qed.

Lemma match_location_follows (s group : Js.str) :
  match_location s = Some group <-> follows_label s group.
Proof.
  unfold match_location, follows_label. split.
  - destruct (strip_prefix_ignore_case (Js.lit "location:") s) as [rest|] eqn:E;
      [|discriminate].
    apply strip_prefix_ignore_case_Some in E as (label & -> & Hl).
    destruct (take_while is_location_char rest) as [|x g] eqn:Eg; [discriminate|].
    intros [= <-]. exists label, rest. rewrite Eg. repeat split; [exact Hl | discriminate].
  - intros (label & rest & -> & Hl & -> & Hne).
    assert (E : strip_prefix_ignore_case (Js.lit "location:") (label ++ rest) = Some rest).
    { apply strip_prefix_ignore_case_Some. exists label. split; [reflexivity | exact Hl]. }
    rewrite E. destruct (take_while is_location_char rest); [congruence | reflexivity].
Qed.

(** [exec_location] returns the group of the first suffix that matches. *)
Lemma exec_location_Some (input group : Js.str) :
  exec_location input = Some group
  <-> exists pre s,
        input = pre ++ s
        /\ match_location s = Some group
        /\ forall k, k < length pre -> match_location (drop k input) = None.
Proof.
  revert group. induction input as [|c input IH]; intros group.
  - cbn [exec_location]. split.
    + destruct (match_location []) eqn:E; [|discriminate]. intros [= ->].
      exists [], []. split; [reflexivity|]. split; [exact E | cbn; lia].
    + intros (pre & s & Hs & Hm & _). symmetry in Hs.
      apply app_eq_nil in Hs as [-> ->]. rewrite Hm. reflexivity.
  - cbn [exec_location]. destruct (match_location (c :: input)) as [g|] eqn:E.
    + split.
      * intros [= ->]. exists [], (c :: input). split; [reflexivity|].
        split; [exact E | cbn; lia].
      * intros (pre & s & Hs & Hm & Hleft). destruct pre as [|x pre].
        -- cbn in Hs. subst s. congruence.
        -- specialize (Hleft 0). cbn in Hleft. rewrite Hleft in E by lia. discriminate.
    + rewrite IH. split.
      * intros (pre & s & -> & Hm & Hleft). exists (c :: pre), s.
        split; [reflexivity|]. split; [exact Hm|].
        intros [|k] Hk; [exact E|]. cbn [drop]. apply Hleft. cbn in Hk. lia.
      * intros (pre & s & Hs & Hm & Hleft). destruct pre as [|x pre].
        -- cbn in Hs. subst s. congruence.
        -- injection Hs as -> ->. exists pre, s. split; [reflexivity|]. split; [exact Hm|].
           intros k Hk. apply (Hleft (S k)). cbn. lia.
Qed.

(** X18. Where the weather tool takes its location from: the group
    [/location:([a-z\s]+)/i] captures is the longest run of ASCII letters
    and white space after the first [location:], in any case, that at
    least one of them follows; an occurrence followed by anything else is
    passed over. *)
Theorem exec_location_leftmost (input group : Js.str) :
  exec_location input = Some group
  <-> exists pre s,
        input = pre ++ s
        /\ follows_label s group
        /\ forall k g, k < length pre -> ~ follows_label (drop k input) g.
Proof.
  rewrite exec_location_Some. split.
  - intros (pre & s & Hs & Hm & Hleft). exists pre, s. split; [exact Hs|].
    split; [apply match_location_follows, Hm|].
    intros k g Hk Hf. apply match_location_follows in Hf.
    rewrite (Hleft k Hk) in Hf. discriminate.
  - intros (pre & s & Hs & Hm & Hleft). exists pre, s. split; [exact Hs|].
    split; [apply match_location_follows, Hm|].
    intros k Hk. destruct (match_location (drop k input)) as [g|] eqn:E; [|reflexivity].
    exfalso. apply (Hleft k g Hk). apply match_location_follows, E.
Qed.

Lemma take_while_all {A} (p : A -> bool) (l : list A) :
  forallb p (take_while p l) = true.
Proof.
  induction l as [|x l IH]; [reflexivity|]. cbn [take_while].
  destruct (p x) eqn:E; [|reflexivity]. cbn. rewrite E, IH. reflexivity.
Qed.

Lemma exec_location_chars (input group : Js.str) :
  exec_location input = Some group -> forallb is_location_char group = true.
Proof.
  intros H. apply exec_location_Some in H as (pre & s & _ & Hm & _).
  apply match_location_follows in Hm as (label & rest & _ & _ & -> & _).
  apply take_while_all.
Qed.

(** X19. The location in a forecast is plain: whatever the input, it
    holds ASCII letters and white space only and has no white space at
    either end; it can be empty, when [location:] is followed by white
    space alone. Without a match it is [the station]. *)
Theorem weather_location_plain (input : Js.str) :
  forallb is_location_char (weather_location input) = true
  /\ Spec.starts_with_white_space (weather_location input) = false
  /\ Shape.ends_with_white_space (weather_location input) = false
  /\ (exec_location input = None -> weather_location input = Js.lit "the station")
  /\ weather_location (Js.lit "location: ") = [].
Proof.
  unfold weather_location. destruct (exec_location input) as [group|] eqn:E.
  - destruct (trim_split group) as (a & b & Hg & Hs & He).
    pose proof (exec_location_chars input group E) as Hc.
    rewrite Hg, !forallb_app in Hc.
    apply andb_prop in Hc as [_ Hc]. apply andb_prop in Hc as [Hc _].
    repeat split; [exact Hc | exact Hs | exact He | discriminate].
  - repeat split.
Qed.

End WeatherFacts.

(** ** The demo workflow and the memory tool *)

Section DemoFacts.

Context {World Metadata : Type}.
Context (date_now : World -> Z * World).
Context (metadata_json : Metadata -> Js.str).

Implicit Types (wf : @LangChainWorkflow World Metadata).
Implicit Types (st : @LoopState World) (s : @ChainStep World Metadata).
Implicit Types (ss pre : list (@ChainStep World Metadata)).
Implicit Types (md : Metadata) (w : World) (query : Js.str).

Import Demo.

Lemma addStep_registered wf (name template t : Js.str) (tool : LangChainTool) :
  t <> [] ->
  tools wf !! t = Some tool ->
  addStep wf name template (Some t) = inr (with_step wf name template (Some tool)).
Proof.
  intros Ht Hreg. unfold addStep. destruct t as [|c t]; [congruence|].
  cbn [Js.truthy]. rewrite Hreg.
  rewrite bool_decide_eq_true_2 by eauto. reflexivity.
Qed.

Lemma demo_built : @createDemoLangChain World Metadata = inr demo_engine.
Proof.
  unfold createDemoLangChain, and_addStep.
  set (wf0 := registerTool (registerTool (create (Some 8%Z)) _ _ _) _ _ _).
  assert (Hm : tools wf0 !! Js.lit "memory" = Some memory_tool)
    by apply registerTool_lookup.
  assert (Hw : tools wf0 !! Js.lit "weather" = Some weather_tool).
  { unfold wf0, registerTool. cbn [tools].
    rewrite lookup_insert_ne by discriminate. apply lookup_insert_eq. }
  rewrite (addStep_registered wf0 _ _ _ memory_tool) by (discriminate || exact Hm).
  rewrite (addStep_registered _ _ _ _ weather_tool) by (discriminate || exact Hw).
  reflexivity.
Qed.

Lemma demo_never_throws : Forall step_never_throws (@demo_steps World Metadata).
Proof.
  unfold demo_steps, step_never_throws, never_throws.
  apply Forall_cons. split; [|apply Forall_cons; split; [|apply Forall_cons; split]].
  - intros input context w. cbn [step_tool tool_handler memory_tool].
    unfold memory_handler. destruct (_ !! _); eauto.
  - intros input context w. cbn [step_tool tool_handler weather_tool].
    unfold weather. eauto.
  - exact I.
  - apply Forall_nil. exact I.
Qed.

Lemma append_last (m : ConversationMemory.t) r txt now :
  (1 <= ConversationMemory.limit m)%Z ->
  last (ConversationMemory.history (ConversationMemory.append m r txt now))
  = Some {| ConversationMemory.role := r; ConversationMemory.text := txt;
            ConversationMemory.timestamp := now |}.
Proof.
  intros Hl. rewrite append_history by lia. rewrite most_recent_snoc_pos by lia.
  apply last_snoc.
Qed.

(** The newest entry of the memory a step works with is the step's input:
    the query, as [user], before the first step, and the response of the
    step before, as [assistant], later on. *)
Lemma run_steps_newest md ss st (st' : LoopState) (r0 : ConversationMemory.Role) :
  (1 <= ConversationMemory.limit (ls_memory st))%Z ->
  (exists e, last (ConversationMemory.history (ls_memory st)) = Some e
             /\ ConversationMemory.text e = ls_previousOutput st
             /\ ConversationMemory.role e = r0) ->
  run_steps date_now metadata_json md ss st = inr st' ->
  exists e, last (ConversationMemory.history (ls_memory st')) = Some e
            /\ ConversationMemory.text e = ls_previousOutput st'
            /\ ConversationMemory.role e
               = match ss with [] => r0 | _ :: _ => ConversationMemory.assistant end.
Proof.
  revert st r0. induction ss as [|s ss IH]; intros st r0 Hl Hinv H.
  - injection H as <-. exact Hinv.
  - cbn [run_steps] in H.
    destruct (run_step date_now metadata_json md st s) as [f|st1] eqn:E; [discriminate|].
    pose proof (run_step_limit date_now metadata_json md st s) as Hlim. rewrite E in Hlim.
    apply run_step_inr_entry in E as (e & now & _ & _ & _ & Eprev & Emem).
    destruct (IH st1 ConversationMemory.assistant) as (e' & He' & Ht' & Hr'); [lia| |exact H|].
    + rewrite Emem, append_last by exact Hl. eexists. split; [reflexivity|].
      split; [symmetry; exact Eprev | reflexivity].
    + exists e'. split; [exact He'|]. split; [exact Ht'|]. destruct ss; exact Hr'.
Qed.

(** X20. The memory tool surfaces the input of its own step: in a run on
    a memory with room for at least one entry, the handler of the demo's
    [memory] tool, called at any step, returns [user said "..."] with the
    query at the first step and [assistant said "..."] with the response
    of the step before at a later one; it never answers [Memory empty.]. *)
Theorem memory_tool_surfaces_input wf query md w pre (st : LoopState)
    (input : Js.str) (w1 : World) :
  (1 <= ConversationMemory.limit (memory wf))%Z ->
  run_steps date_now metadata_json md pre (seed date_now wf query w) = inr st ->
  @memory_handler World Metadata input (context_of md st) w1
  = (inr (ConversationMemory.role_name
            match pre with
            | [] => ConversationMemory.user
            | _ :: _ => ConversationMemory.assistant
            end
          ++ Js.lit " said " ++ [Js.DQUOTE] ++ ls_previousOutput st ++ [Js.DQUOTE]), w1).
Proof.
  intros Hl H.
  destruct (seed_fields date_now wf query w) as (_ & _ & Hp & Hm & _).
  destruct (run_steps_newest md pre (seed date_now wf query w) st ConversationMemory.user)
    as (e & He & Ht & Hr); [rewrite Hm, append_limit; exact Hl| |exact H|].
  - rewrite Hm, append_last, Hp by exact Hl. eexists. repeat split.
  - unfold memory_handler. cbn [ctx_memory context_of].
    unfold ConversationMemory.snapshot. rewrite slice_last, He, Ht, Hr. reflexivity.
Qed.

(** X21. The demo answers every query alike: the engine
    [createDemoLangChain] builds never throws on [invoke], whatever its
    memory holds (the metadata being one [JSON.stringify] accepts); the
    trace has the three steps in order; and [final] is always the last
    line of the last template, [Final instruction: Provide a concise
    operational recommendation.], whatever the query. *)
Theorem demo_always_answers :
  @createDemoLangChain World Metadata = inr demo_engine
  /\ forall (m : ConversationMemory.t) query md w,
       exists r,
         (invoke date_now metadata_json (with_memory demo_engine m) query md w).1.1 = inr r
         /\ List.map step (trace r)
            = [Js.lit "Assess request"; Js.lit "Run weather check"; Js.lit "Compose response"]
         /\ final r
            = Js.lit "Final instruction: Provide a concise operational recommendation.".
Proof.
  split; [apply demo_built|]. intros m query md w.
  rewrite invoke_steps by discriminate.
  change (steps (with_memory (@demo_engine World Metadata) m)) with (@demo_steps World Metadata).
  destruct (run_steps_returns date_now metadata_json md (@demo_steps World Metadata)
              (seed date_now (with_memory (@demo_engine World Metadata) m) query w) demo_never_throws)
    as (st & E).
  rewrite E. eexists. split; [reflexivity|]. cbn [trace final]. split.
  - apply run_steps_inr in E as (new & stamps & Htr & Hsteps & _).
    destruct (seed_fields date_now (with_memory (@demo_engine World Metadata) m) query w) as (Hs & _).
    rewrite Hs in Htr. cbn [app] in Htr. rewrite Htr, Hsteps. reflexivity.
  - pose (s3 := {| step_name := Js.lit "Compose response";
                   step_prompt := {| PromptTemplate.template := compose_template |};
                   step_tool := None |} : @ChainStep World Metadata).
    change (@demo_steps World Metadata) with (take 2 (@demo_steps World Metadata) ++ [s3]) in E.
    assert (Hfree : Shape.free_of Shape.CLOSE_BRACE
                      (Spec.last_segment (PromptTemplate.template (step_prompt s3))) = true)
      by (vm_compute; reflexivity).
    rewrite (run_steps_last_fixed date_now metadata_json md _ s3 _ st eq_refl Hfree E).
    vm_compute. reflexivity.
Qed.

End DemoFacts.

(** ** Several turns on one engine *)

Section Turns.

Context {World Metadata : Type}.
Context (date_now : World -> Z * World).
Context (metadata_json : Metadata -> Js.str).

Implicit Types (wf : @LangChainWorkflow World Metadata).
Implicit Types (md : Metadata) (w : World) (query : Js.str).

Lemma most_recent_app {A} (n : nat) (x c : list A) :
  Spec.most_recent n (Spec.most_recent n x ++ c) = Spec.most_recent n (x ++ c).
Proof.
  induction c as [|e c IH] using rev_ind.
  - rewrite !app_nil_r, !most_recent_drop, length_drop, drop_drop. f_equal. lia.
  - rewrite !app_assoc. rewrite <- (most_recent_snoc n (_ ++ c)), IH.
    apply most_recent_snoc.
Qed.

Lemma most_recent_map {A B} (f : A -> B) (n : nat) (l : list A) :
  List.map f (Spec.most_recent n l) = Spec.most_recent n (List.map f l).
Proof.
  rewrite !most_recent_drop, length_map. symmetry. apply skipn_map.
Qed.

Lemma said_run_calls query now (tr : list StepTrace) (stamps : list Z) :
  length stamps = length tr ->
  List.map (fun e => (ConversationMemory.role e, ConversationMemory.text e))
           (List.map entry_of (run_calls query now tr stamps))
  = turn_entries query {| final := []; trace := tr |}.
Proof.
  intros Hlen. unfold run_calls, turn_entries. cbn [List.map trace]. f_equal.
  unfold assistant_calls. revert stamps Hlen.
  induction tr as [|e tr IH]; intros [|t stamps] Hlen; try discriminate; [reflexivity|].
  cbn. f_equal. apply IH. cbn in Hlen. lia.
Qed.

(** One successful turn, without the instants. *)
Lemma invoke_said wf query md w (r : WorkflowResult) (wf' : LangChainWorkflow) (w' : World) :
  (0 <= ConversationMemory.limit (memory wf))%Z ->
  invoke date_now metadata_json wf query md w = (inr r, wf', w') ->
  said (memory wf')
  = Spec.most_recent (Z.to_nat (ConversationMemory.limit (memory wf)))
      (said (memory wf) ++ turn_entries query r)
  /\ ConversationMemory.limit (memory wf') = ConversationMemory.limit (memory wf).
Proof.
  intros Hl H. unfold invoke in H.
  destruct (steps wf) as [|s0 ss0] eqn:Hss; [discriminate|].
  destruct (run_steps date_now metadata_json md (s0 :: ss0) (seed date_now wf query w))
    as [[e st]|st] eqn:E; [discriminate|].
  injection H as <- <- _. cbn [trace memory with_memory].
  pose proof (run_steps_limit date_now metadata_json md (s0 :: ss0)
                (seed date_now wf query w)) as Hlim.
  rewrite E in Hlim.
  apply run_steps_inr in E as (new & stamps & Htr & Hsteps & Hlen & _ & Hmem).
  destruct (seed_fields date_now wf query w) as (Hs & _ & _ & Hm & _).
  rewrite Hs in Htr. cbn [app] in Htr. rewrite Hm, append_limit in Hlim.
  split; [|exact Hlim].
  assert (Hn : length stamps = length new).
  { rewrite Hlen, <- (length_map step_name (s0 :: ss0)), <- Hsteps, length_map. reflexivity. }
  unfold said, ConversationMemory.snapshot. rewrite Hmem, Hm.
  change (fold_left do_append (assistant_calls new stamps)
            (ConversationMemory.append (memory wf) ConversationMemory.user query
               (date_now w).1))
    with (fold_left do_append (run_calls query (date_now w).1 new stamps) (memory wf)).
  destruct (appends_history (memory wf) (run_calls query (date_now w).1 new stamps) Hl)
    as [Hh _]; [discriminate|].
  rewrite Hh, most_recent_map, List.map_app, said_run_calls by exact Hn.
  rewrite Htr. reflexivity.
Qed.

(** X22. The memory after a conversation: when every one of several
    [invoke] calls in a row returns, the memory holds the most recent
    [limit] of all that was said, in order: what it held before, then for each
    turn the query as [user] and the responses of the turn's trace as
    [assistant] (capacity a count; who said what, the instants left out). *)
Theorem conversation_memory wf md (queries : list Js.str) w
    (results : list WorkflowResult) (wf' : LangChainWorkflow) (w' : World) :
  (0 <= ConversationMemory.limit (memory wf))%Z ->
  queries <> [] ->
  invoke_each date_now metadata_json wf md queries w = (List.map inr results, wf', w') ->
  said (memory wf')
  = Spec.most_recent (Z.to_nat (ConversationMemory.limit (memory wf)))
      (said (memory wf) ++ concat (zip_with turn_entries queries results)).
Proof.
  intros Hl Hne. revert wf w results Hl.
  induction queries as [|query rest IH]; [congruence|]. intros wf w results Hl H.
  cbn [invoke_each] in H.
  destruct (invoke date_now metadata_json wf query md w) as [[o wf1] w1] eqn:E.
  cbn [fst snd] in H.
  destruct (invoke_each date_now metadata_json wf1 md rest w1) as [[os wf2] w2] eqn:E2.
  cbn [fst snd] in H. injection H as Ho <- <-.
  destruct results as [|r results]; [discriminate|]. cbn [List.map] in Ho.
  injection Ho as -> ->.
  destruct (invoke_said wf query md w r wf1 w1 Hl E) as [Hsaid Hlim].
  cbn [zip_with concat].
  destruct rest as [|query2 rest2].
  - cbn [invoke_each] in E2. injection E2 as _ <- _.
    destruct results; cbn [zip_with concat]; rewrite app_nil_r; exact Hsaid.
  - rewrite (IH ltac:(discriminate) wf1 w1 results) by (rewrite ?Hlim; assumption).
    rewrite Hlim, Hsaid, most_recent_app, <- app_assoc. reflexivity.
Qed.

End Turns.

(** ** The further properties at sample values *)

Lemma append_keeps_newest_witness :
  (1 <= ConversationMemory.limit Cases.memory_two)%Z
  /\ (ConversationMemory.snapshot
        (ConversationMemory.append Cases.memory_two ConversationMemory.assistant
           (Js.lit "d") 4%Z)
      = Spec.most_recent (Z.to_nat (ConversationMemory.limit Cases.memory_two) - 1)
          (ConversationMemory.snapshot Cases.memory_two)
          ++ [{| ConversationMemory.role := ConversationMemory.assistant;
                 ConversationMemory.text := Js.lit "d";
                 ConversationMemory.timestamp := 4%Z |}]
      /\ length (ConversationMemory.snapshot
                   (ConversationMemory.append Cases.memory_two
                      ConversationMemory.assistant (Js.lit "d") 4%Z))
         = Nat.min (length (ConversationMemory.snapshot Cases.memory_two) + 1)
             (Z.to_nat (ConversationMemory.limit Cases.memory_two))).
Proof.
  assert (H : (1 <= ConversationMemory.limit Cases.memory_two)%Z) by (vm_compute; discriminate).
  split; [exact H|].
  exact (append_keeps_newest Cases.memory_two ConversationMemory.assistant (Js.lit "d") 4%Z H).
Defined.

Lemma append_without_capacity_witness :
  (ConversationMemory.limit Cases.no_memory <= 0)%Z
  /\ (ConversationMemory.snapshot
        (ConversationMemory.append Cases.no_memory ConversationMemory.user (Js.lit "a") 1%Z)
      = []
      /\ ConversationMemory.limit
           (ConversationMemory.append Cases.no_memory ConversationMemory.user (Js.lit "a") 1%Z)
         = ConversationMemory.limit Cases.no_memory
      /\ ConversationMemory.summarize
           (ConversationMemory.append Cases.no_memory ConversationMemory.user (Js.lit "a") 1%Z)
         = Js.lit "Conversation just started.").
Proof.
  assert (H : (ConversationMemory.limit Cases.no_memory <= 0)%Z) by (vm_compute; discriminate).
  split; [exact H|].
  exact (append_without_capacity Cases.no_memory ConversationMemory.user (Js.lit "a") 1%Z H).
Defined.

Lemma format_without_placeholder_witness :
  forallb Js.plain_key (List.map fst (Js.entries Cases.name_binding)) = true
  /\ Shape.has_double_brace (PromptTemplate.template Cases.plain_template) = false
  /\ PromptTemplate.format Cases.plain_template Cases.name_binding
     = PromptTemplate.template Cases.plain_template.
Proof.
  assert (H1 : forallb Js.plain_key (List.map fst (Js.entries Cases.name_binding)) = true)
    by (vm_compute; reflexivity).
  assert (H2 : Shape.has_double_brace (PromptTemplate.template Cases.plain_template) = false)
    by (vm_compute; reflexivity).
  split; [exact H1|]. split; [exact H2|].
  exact (format_without_placeholder Cases.plain_template Cases.name_binding H1 H2).
Defined.

Lemma format_replaces_in_turn_witness :
  forallb Js.plain_key (List.map fst (Js.entries Cases.name_binding)) = true
  /\ forallb (fun kv => Spec.dollar_free kv.2) (Js.entries Cases.name_binding) = true
  /\ PromptTemplate.format Cases.hello_template Cases.name_binding
     = Spec.formatted (PromptTemplate.template Cases.hello_template)
         (Js.entries Cases.name_binding).
Proof.
  assert (H1 : forallb Js.plain_key (List.map fst (Js.entries Cases.name_binding)) = true)
    by (vm_compute; reflexivity).
  assert (H2 : forallb (fun kv => Spec.dollar_free kv.2) (Js.entries Cases.name_binding) = true)
    by (vm_compute; reflexivity).
  split; [exact H1|]. split; [exact H2|].
  exact (format_replaces_in_turn Cases.hello_template Cases.name_binding H1 H2).
Defined.

Lemma match_placeholder_iff_witness :
  Js.plain_key (Js.lit "name") = true
  /\ (Js.match_placeholder (Js.lit "name") (Js.lit "{{ name }}, welcome") = Some (Js.lit ", welcome")
      <-> exists m, Spec.is_placeholder (Js.lit "name") m
                    /\ Js.lit "{{ name }}, welcome" = m ++ Js.lit ", welcome").
Proof.
  assert (H : Js.plain_key (Js.lit "name") = true) by (vm_compute; reflexivity).
  split; [exact H|].
  exact (match_placeholder_iff (Js.lit "name") (Js.lit "{{ name }}, welcome")
           (Js.lit ", welcome") H).
Defined.

Lemma format_keeps_last_line_witness :
  forallb Js.plain_key (List.map fst (Js.entries Cases.noisy_binding)) = true
  /\ Shape.free_of Shape.CLOSE_BRACE
       (Spec.last_segment (PromptTemplate.template Cases.closing)) = true
  /\ Spec.last_segment (PromptTemplate.format Cases.closing Cases.noisy_binding)
     = Spec.last_segment (PromptTemplate.template Cases.closing).
Proof.
  assert (H1 : forallb Js.plain_key (List.map fst (Js.entries Cases.noisy_binding)) = true)
    by (vm_compute; reflexivity).
  assert (H2 : Shape.free_of Shape.CLOSE_BRACE
                 (Spec.last_segment (PromptTemplate.template Cases.closing)) = true)
    by (vm_compute; reflexivity).
  split; [exact H1|]. split; [exact H2|].
  exact (format_keeps_last_line Cases.closing Cases.noisy_binding H1 H2).
Defined.

Lemma registerTool_then_addStep_witness :
  Js.lit "echo" <> []
  /\ (addStep (registerTool Cases.echo_engine (Js.lit "echo") (Js.lit "fails") Sample.failing)
        (Js.lit "s") (Js.lit "t") (Some (Js.lit "echo"))
      = inr (with_step
               (registerTool Cases.echo_engine (Js.lit "echo") (Js.lit "fails") Sample.failing)
               (Js.lit "s") (Js.lit "t")
               (Some {| tool_name := Js.lit "echo"; tool_description := Js.lit "fails";
                        tool_handler := Sample.failing |}))
      /\ forall n', n' <> Js.lit "echo" ->
           tools (registerTool Cases.echo_engine (Js.lit "echo") (Js.lit "fails") Sample.failing)
             !! n'
           = tools Cases.echo_engine !! n').
Proof.
  assert (H : Js.lit "echo" <> []) by (vm_compute; discriminate).
  split; [exact H|].
  exact (registerTool_then_addStep Cases.echo_engine (Js.lit "echo") (Js.lit "fails")
           Sample.failing (Js.lit "s") (Js.lit "t") H).
Defined.

Lemma sample_returns :
  invoke Sample.date_now Sample.metadata_json Sample.sample Sample.sample_query
    Sample.sample_metadata 0%Z
  = (inr Sample.sample_result, Sample.sample_run.1.2, Sample.sample_run.2).
Proof. vm_compute. reflexivity. Qed.

Lemma invoke_memory_growth_witness :
  (0 <= ConversationMemory.limit (memory Sample.sample))%Z
  /\ invoke Sample.date_now Sample.metadata_json Sample.sample Sample.sample_query
       Sample.sample_metadata 0%Z
     = (inr Sample.sample_result, Sample.sample_run.1.2, Sample.sample_run.2)
  /\ exists stamps,
       length stamps = length (trace Sample.sample_result)
       /\ ConversationMemory.snapshot (memory Sample.sample_run.1.2)
          = Spec.most_recent (Z.to_nat (ConversationMemory.limit (memory Sample.sample)))
              (ConversationMemory.snapshot (memory Sample.sample)
                 ++ List.map entry_of
                      (run_calls Sample.sample_query (Sample.date_now 0%Z).1
                         (trace Sample.sample_result) stamps)).
Proof.
  assert (H : (0 <= ConversationMemory.limit (memory Sample.sample))%Z)
    by (vm_compute; discriminate).
  split; [exact H|]. split; [exact sample_returns|].
  exact (invoke_memory_growth Sample.date_now Sample.metadata_json Sample.sample
           Sample.sample_query Sample.sample_metadata 0%Z Sample.sample_result
           Sample.sample_run.1.2 Sample.sample_run.2 H sample_returns).
Defined.


Lemma sample_steps : steps Sample.sample = [Cases.sample_echo; Cases.sample_closing].
Proof. reflexivity. Qed.

Lemma sample_never_throws : Forall step_never_throws (steps Sample.sample).
Proof.
  rewrite sample_steps.
  apply Forall_cons. split; [|apply Forall_cons; split; [exact I | apply Forall_nil; exact I]].
  intros input context w. eexists _, _. reflexivity.
Qed.

Lemma sample_has_steps : steps Sample.sample <> [].
Proof. vm_compute. discriminate. Qed.

Lemma invoke_cannot_throw_witness :
  steps Sample.sample <> []
  /\ Forall step_never_throws (steps Sample.sample)
  /\ exists r,
       (invoke Sample.date_now Sample.metadata_json Sample.sample Sample.sample_query
          Sample.sample_metadata 0%Z).1.1 = inr r
       /\ length (trace r) = length (steps Sample.sample).
Proof.
  split; [exact sample_has_steps|]. split; [exact sample_never_throws|].
  exact (invoke_cannot_throw Sample.date_now Sample.metadata_json Sample.sample
           Sample.sample_query Sample.sample_metadata 0%Z
           sample_has_steps sample_never_throws).
Defined.

Lemma invoke_final_fixed_witness :
  steps Sample.sample = Cases.sample_first ++ [Cases.sample_closing]
  /\ step_tool Cases.sample_closing = None
  /\ Shape.free_of Shape.CLOSE_BRACE
       (Spec.last_segment (PromptTemplate.template (step_prompt Cases.sample_closing))) = true
  /\ invoke Sample.date_now Sample.metadata_json Sample.sample Sample.sample_query
       Sample.sample_metadata 0%Z
     = (inr Sample.sample_result, Sample.sample_run.1.2, Sample.sample_run.2)
  /\ final Sample.sample_result
     = generateResponse
         (Spec.last_segment (PromptTemplate.template (step_prompt Cases.sample_closing))) None.
Proof.
  assert (H1 : steps Sample.sample = Cases.sample_first ++ [Cases.sample_closing])
    by (vm_compute; reflexivity).
  assert (H3 : Shape.free_of Shape.CLOSE_BRACE
                 (Spec.last_segment
                    (PromptTemplate.template (step_prompt Cases.sample_closing))) = true)
    by (vm_compute; reflexivity).
  split; [exact H1|]. split; [reflexivity|]. split; [exact H3|]. split; [exact sample_returns|].
  exact (invoke_final_fixed Sample.date_now Sample.metadata_json Sample.sample
           Sample.sample_query Sample.sample_metadata 0%Z Cases.sample_first
           Cases.sample_closing Sample.sample_result Sample.sample_run.1.2
           Sample.sample_run.2 H1 eq_refl H3 sample_returns).
Defined.

Lemma sample_not_proto :
  Forall (fun s : @ChainStep Sample.World Sample.Metadata =>
            bound_name s <> Some (Js.lit "__proto__")) (steps Sample.sample).
Proof.
  rewrite sample_steps.
  apply Forall_cons. split; [|apply Forall_cons; split; [|apply Forall_nil; exact I]];
    vm_compute; discriminate.
Qed.

Lemma tool_results_last_write_witness :
  run_steps Sample.date_now Sample.metadata_json Sample.sample_metadata (steps Sample.sample)
    (seed Sample.date_now Sample.sample Sample.sample_query 0%Z)
  = inr Cases.sample_state
  /\ Forall (fun s : @ChainStep Sample.World Sample.Metadata =>
               bound_name s <> Some (Js.lit "__proto__")) (steps Sample.sample)
  /\ length (ls_trace Cases.sample_state) = length (steps Sample.sample)
  /\ forall n, Js.obj_get (ls_toolResults Cases.sample_state) n
               = last_result_for n (zip (steps Sample.sample) (ls_trace Cases.sample_state)) None.
Proof.
  assert (H : run_steps Sample.date_now Sample.metadata_json Sample.sample_metadata
                (steps Sample.sample)
                (seed Sample.date_now Sample.sample Sample.sample_query 0%Z)
              = inr Cases.sample_state) by (vm_compute; reflexivity).
  split; [exact H|]. split; [exact sample_not_proto|].
  exact (tool_results_last_write Sample.date_now Sample.metadata_json Sample.sample
           Sample.sample_query Sample.sample_metadata 0%Z (steps Sample.sample)
           Cases.sample_state H sample_not_proto).
Defined.

Lemma memory_tool_surfaces_input_witness :
  (1 <= ConversationMemory.limit (memory Cases.demo))%Z
  /\ run_steps Sample.date_now Sample.metadata_json Sample.sample_metadata []
       (seed Sample.date_now Cases.demo Sample.sample_query 0%Z)
     = inr (seed Sample.date_now Cases.demo Sample.sample_query 0%Z)
  /\ @Demo.memory_handler Sample.World Sample.Metadata (Js.lit "any prompt")
       (context_of Sample.sample_metadata
          (seed Sample.date_now Cases.demo Sample.sample_query 0%Z)) 7%Z
     = (inr (ConversationMemory.role_name ConversationMemory.user
             ++ Js.lit " said " ++ [Js.DQUOTE]
             ++ ls_previousOutput (seed Sample.date_now Cases.demo Sample.sample_query 0%Z)
             ++ [Js.DQUOTE]), 7%Z).
Proof.
  assert (H : (1 <= ConversationMemory.limit (memory Cases.demo))%Z)
    by (vm_compute; discriminate).
  split; [exact H|]. split; [reflexivity|].
  exact (memory_tool_surfaces_input Sample.date_now Sample.metadata_json Cases.demo
           Sample.sample_query Sample.sample_metadata 0%Z []
           (seed Sample.date_now Cases.demo Sample.sample_query 0%Z)
           (Js.lit "any prompt") 7%Z H eq_refl).
Defined.

Lemma conversation_memory_witness :
  (0 <= ConversationMemory.limit (memory Sample.narrow))%Z
  /\ Cases.three_queries <> []
  /\ invoke_each Sample.date_now Sample.metadata_json Sample.narrow Sample.sample_metadata
       Cases.three_queries 0%Z
     = (List.map inr Cases.three_results, Cases.three_turns.1.2, Cases.three_turns.2)
  /\ said (memory Cases.three_turns.1.2)
     = Spec.most_recent (Z.to_nat (ConversationMemory.limit (memory Sample.narrow)))
         (said (memory Sample.narrow)
            ++ concat (zip_with turn_entries Cases.three_queries Cases.three_results)).
Proof.
  assert (H0 : (0 <= ConversationMemory.limit (memory Sample.narrow))%Z)
    by (vm_compute; discriminate).
  assert (H1 : Cases.three_queries <> []) by discriminate.
  assert (H2 : invoke_each Sample.date_now Sample.metadata_json Sample.narrow
                 Sample.sample_metadata Cases.three_queries 0%Z
               = (List.map inr Cases.three_results, Cases.three_turns.1.2,
                  Cases.three_turns.2)) by (vm_compute; reflexivity).
  split; [exact H0|]. split; [exact H1|]. split; [exact H2|].
  exact (conversation_memory Sample.date_now Sample.metadata_json Sample.narrow
           Sample.sample_metadata Cases.three_queries 0%Z Cases.three_results
           Cases.three_turns.1.2 Cases.three_turns.2 H0 H1 H2).
Defined.
